(** * football-league: validators, network observer and request report

    A shallow embedding of the pure helpers of [src/helpers/validators.ts]
    and of the network bookkeeping of the end-to-end suite (the request and
    response listeners installed in [beforeEach], and the report built by
    the "HTTP Request Report" test), and of the listeners and checks of the
    other tests (the caching test, the fallback over selectors, the link
    checks, the goal sorting), followed by the properties checked against
    them. *)

From stdpp Require Import base decidable option list strings gmap fin_maps.
From Stdlib Require Import ZArith NArith Lia Sorted.
From Stdlib Require Ascii String.

Local Open Scope Z_scope.

(** ** JavaScript strings *)

Module JsString.

(** A JavaScript string is a finite sequence of UTF-16 code units. *)
Abbreviation jsstring := (list N).

(** ASCII literals of the source, as code units. *)
Definition js (s : string) : jsstring :=
  Ascii.N_of_ascii <$> String.list_ascii_of_string s.

(** ECMAScript WhiteSpace: TAB, VT, FF, ZWNBSP and the code points of
    Unicode category Zs. *)
Definition is_white_space (c : N) : bool :=
  ((c =? 0x0009) || (c =? 0x000B) || (c =? 0x000C) || (c =? 0x0020)
   || (c =? 0x00A0) || (c =? 0x1680)
   || ((0x2000 <=? c) && (c <=? 0x200A))
   || (c =? 0x202F) || (c =? 0x205F) || (c =? 0x3000) || (c =? 0xFEFF))%N.

(** ECMAScript LineTerminator: LF, CR, LS, PS. *)
Definition is_line_terminator (c : N) : bool :=
  ((c =? 0x000A) || (c =? 0x000D) || (c =? 0x2028) || (c =? 0x2029))%N.

Definition is_trimmable (c : N) : bool :=
  is_white_space c || is_line_terminator c.

Fixpoint trimStart (s : jsstring) : jsstring :=
  match s with
  | [] => []
  | c :: s' => if is_trimmable c then trimStart s' else s
  end.

Definition trimEnd (s : jsstring) : jsstring :=
  rev (trimStart (rev s)).

(** [String.prototype.trim] *)
Definition trim (s : jsstring) : jsstring :=
  trimEnd (trimStart s).

Fixpoint startsWith (s p : jsstring) : bool :=
  match p, s with
  | [], _ => true
  | _ :: _, [] => false
  | a :: p', b :: s' => (a =? b)%N && startsWith s' p'
  end.

(** [String.prototype.includes]: [p] occurs in [s] at some position. *)
Fixpoint includes (s p : jsstring) : bool :=
  startsWith s p ||
  match s with
  | [] => false
  | _ :: s' => includes s' p
  end.

(** ToBoolean on a string: only the empty string is falsy. *)
Definition truthy_string (s : jsstring) : bool :=
  match s with [] => false | _ :: _ => true end.

(** ToBoolean on a possibly undefined string. *)
Definition truthy_opt_string (o : option jsstring) : bool :=
  match o with None => false | Some s => truthy_string s end.

(** ToBoolean on a possibly undefined integer-valued number:
    [undefined] and [0] are falsy. *)
Definition truthy_opt_number (o : option Z) : bool :=
  match o with None => false | Some n => negb (n =? 0) end.

(** The tags [typeof] can produce on the values met here. *)
Inductive type_tag := TUndefined | TNumber | TString | TBoolean.

#[global] Instance type_tag_eq_dec : EqDecision type_tag.
Proof. solve_decision. Defined.

End JsString.

Import JsString.

(** ** [src/helpers/validators.ts] *)

Module Validators.

Inductive MatchState := played | upcoming | postponed | canceled.

Section WithNumber.

(** The representation of JavaScript numbers: the validators only ask
    whether a score is defined. *)
Context {number : Type}.

(** [interface Match] of [types/match.types]; an optional field is an
    [option], [None] standing for [undefined]. *)
Record Match := mkMatch {
  homeTeam : jsstring;
  awayTeam : jsstring;
  homeScore : option number;
  awayScore : option number;
  date : jsstring;
  time : option jsstring;
  state : option MatchState;
  link : option jsstring
}.

Definition typeof_string (s : jsstring) : type_tag := TString.

Definition typeof_opt_number (o : option number) : type_tag :=
  match o with None => TUndefined | Some _ => TNumber end.

Definition is_defined {A} (o : option A) : bool :=
  match o with None => false | Some _ => true end.

Definition validateMatch (m : Match) : bool :=
  truthy_string (homeTeam m) &&
  truthy_string (awayTeam m) &&
  truthy_string (date m) &&
  bool_decide (typeof_string (homeTeam m) = TString) &&
  bool_decide (typeof_string (awayTeam m) = TString) &&
  (0 <? length (trim (homeTeam m)))%nat &&
  (0 <? length (trim (awayTeam m)))%nat.

Definition isPlayedMatch (m : Match) : bool :=
  is_defined (homeScore m) &&
  is_defined (awayScore m) &&
  bool_decide (typeof_opt_number (homeScore m) = TNumber) &&
  bool_decide (typeof_opt_number (awayScore m) = TNumber).

Definition isUpcomingMatch (m : Match) : bool :=
  negb (isPlayedMatch m) &&
  match time m with
  | None => false
  | Some t => (0 <? length (trim t))%nat
  end.

Definition validateTeamName (teamName : option (option jsstring)) : bool :=
  match teamName with
  | None => false                    (* null *)
  | Some None => false               (* undefined *)
  | Some (Some s) =>
      bool_decide (typeof_string s = TString) &&
      (0 <? length (trim s))%nat
  end.

End WithNumber.

Arguments Match : clear implicits.

End Validators.

(** ** The network observer of the suite ([beforeEach] in the spec file) *)

Module NetworkObserver.

(** [interface NetworkRequest] of [types/match.types].  Timestamps,
    response times and status codes are integer-valued numbers. *)
Record NetworkRequest := mkNetworkRequest {
  url : jsstring;
  method : jsstring;
  timestamp : Z;
  responseTime : option Z;
  cached : option bool;
  status : option Z
}.

#[global] Instance NetworkRequest_eq_dec : EqDecision NetworkRequest.
Proof. solve_decision. Defined.

(** What the listeners read from the browser's request object. *)
Record Request := mkRequest {
  request_url : jsstring;
  request_method : jsstring
}.

(** What the listeners read from the browser's response object;
    [response_headers] is the object returned by [headers()], a header
    that was not sent reads as [undefined]. *)
Record Response := mkResponse {
  response_url : jsstring;
  response_status : Z;
  response_headers : gmap jsstring jsstring
}.

(** [page.on("request", ...)]; [now] is the value of [Date.now()]. *)
Definition on_request (now : Z) (request : Request)
    (networkRequests : list NetworkRequest) : list NetworkRequest :=
  networkRequests ++
  [ {| url := request_url request;
       method := request_method request;
       timestamp := now;
       responseTime := None;
       cached := None;
       status := None |} ].

(** The predicate handed to [networkRequests.find]:
    [req.url === response.url() && !req.responseTime]. *)
Definition find_pred (response : Response) (req : NetworkRequest) : bool :=
  bool_decide (url req = response_url response) &&
  negb (truthy_opt_number (responseTime req)).

(** The three assignments made on the record that was found. *)
Definition resolve (now : Z) (response : Response)
    (request : NetworkRequest) : NetworkRequest :=
  let cacheControl := response_headers response !! js "cache-control" in
  let etag := response_headers response !! js "etag" in
  {| url := url request;
     method := method request;
     timestamp := timestamp request;
     responseTime := Some (now - timestamp request);
     cached := Some (truthy_opt_string cacheControl || truthy_opt_string etag);
     status := Some (response_status response) |}.

(** [page.on("response", ...)]: the record found is updated in place,
    the array keeps its order. *)
Definition on_response (now : Z) (response : Response)
    (networkRequests : list NetworkRequest) : list NetworkRequest :=
  match list_find (λ req, find_pred response req = true) networkRequests with
  | Some (i, request) => <[i := resolve now response request]> networkRequests
  | None => networkRequests
  end.

(** The page's events in arrival order, each with the clock reading the
    listener takes. *)
Inductive event :=
| RequestIssued (now : Z) (request : Request)
| ResponseReceived (now : Z) (response : Response).

Definition handle (networkRequests : list NetworkRequest) (e : event)
    : list NetworkRequest :=
  match e with
  | RequestIssued now request => on_request now request networkRequests
  | ResponseReceived now response => on_response now response networkRequests
  end.

(** The array after a run of events, starting from the cleared array. *)
Definition observe (events : list event) : list NetworkRequest :=
  foldl handle [] events.

End NetworkObserver.

(** ** The report of the "HTTP Request Report" test *)

Module ReportAggregator.
Import NetworkObserver.

(** Exceptions and completions, for the [try]/[catch] of the loop. *)
Inductive exn := TypeError_InvalidURL (input : jsstring).

Inductive completion (A : Type) :=
| Normal (a : A)
| Throw (e : exn).
Arguments Normal {A} a.
Arguments Throw {A} e.

#[global] Instance completion_ret : MRet completion := λ A a, Normal a.
#[global] Instance completion_bind : MBind completion := λ A B f c,
  match c with Normal a => f a | Throw e => Throw e end.

Definition try_catch {A} (body : completion A) (handler : exn → completion A)
    : completion A :=
  match body with Normal a => Normal a | Throw e => handler e end.

Record RequestsByType := mkRequestsByType {
  api : Z;
  data : Z;
  assets : Z;
  other : Z
}.

(** What a property of the two objects keyed by strings can hold: a count,
    or the string an increment makes of what is read through the
    prototype. *)
Inductive jsvalue :=
| JNumber (n : Z)
| JString (s : jsstring).

#[global] Instance jsvalue_eq_dec : EqDecision jsvalue.
Proof. solve_decision. Defined.

(** [requestsByMethod] and [requestsByDomain] are plain objects [{}]: the
    maps below hold their own properties, and what they inherit from
    [Object.prototype] is read by [get]. *)
Record RequestReport := mkRequestReport {
  totalRequests : Z;
  requestsByMethod : gmap jsstring jsvalue;
  requestsByDomain : gmap jsstring jsvalue;
  requestsByType : RequestsByType;
  statusCodes : gmap Z Z
}.

(** The properties of [Object.prototype] that hold a function, each with
    the name of its function. *)
Definition prototype_functions : list (jsstring * jsstring) :=
  [ (js "constructor", js "Object");
    (js "__defineGetter__", js "__defineGetter__");
    (js "__defineSetter__", js "__defineSetter__");
    (js "hasOwnProperty", js "hasOwnProperty");
    (js "__lookupGetter__", js "__lookupGetter__");
    (js "__lookupSetter__", js "__lookupSetter__");
    (js "isPrototypeOf", js "isPrototypeOf");
    (js "propertyIsEnumerable", js "propertyIsEnumerable");
    (js "toString", js "toString");
    (js "valueOf", js "valueOf");
    (js "toLocaleString", js "toLocaleString") ].

(** The string of a built-in function, as the engine under Node prints
    it. *)
Definition native_text (name : jsstring) : jsstring :=
  js "function " ++ name ++ js "() { [native code] }".

(** What a read of [k] finds on [Object.prototype], as the string the [+]
    of an increment makes of it: the text of a built-in function, or
    ["[object Object]"] for the prototype itself, which the getter of
    [__proto__] returns. *)
Definition inherited_text (k : jsstring) : option jsstring :=
  if bool_decide (k = js "__proto__") then Some (js "[object Object]")
  else native_text <$>
         (list_to_map prototype_functions : gmap jsstring jsstring) !! k.

(** The outcomes of a read [obj[k]]. *)
Inductive property_read :=
| ReadUndefined
| ReadNumber (n : Z)
| ReadString (s : jsstring)
| ReadInherited (text : jsstring).

(** A read of [k] on an object whose own property [k] is [own]: the own
    property, else the inherited one. *)
Definition read_property (own : option jsvalue) (k : jsstring) : property_read :=
  match own with
  | Some (JNumber n) => ReadNumber n
  | Some (JString s) => ReadString s
  | None =>
      match inherited_text k with
      | Some text => ReadInherited text
      | None => ReadUndefined
      end
  end.

(** [obj[k]] *)
Definition get (obj : gmap jsstring jsvalue) (k : jsstring) : property_read :=
  read_property (obj !! k) k.

(** [(x || 0) + 1]: a function or an object is truthy and [+] makes a
    string of it; a string other than [""] is truthy and [+] appends
    ["1"]. *)
Definition or_zero_plus_one (x : property_read) : jsvalue :=
  match x with
  | ReadUndefined => JNumber (0 + 1)
  | ReadNumber n => JNumber ((if n =? 0 then 0 else n) + 1)
  | ReadString s =>
      if truthy_string s then JString (s ++ js "1") else JNumber (0 + 1)
  | ReadInherited text => JString (text ++ js "1")
  end.

(** [obj[k] = v]: an own property is created or overwritten, except for
    [__proto__], whose setter ignores a value that is not an object. *)
Definition assign (k : jsstring) (v : jsvalue) (obj : gmap jsstring jsvalue)
    : gmap jsstring jsvalue :=
  if bool_decide (k = js "__proto__") then obj else <[k := v]> obj.

(** [obj[k] = (obj[k] || 0) + 1] on a plain object keyed by strings. *)
Definition increment_property (k : jsstring) (obj : gmap jsstring jsvalue)
    : gmap jsstring jsvalue :=
  assign k (or_zero_plus_one (get obj k)) obj.

(** [x || 0] on a counter read from an object. *)
Definition or_zero (o : option Z) : Z :=
  match o with
  | None => 0
  | Some n => if n =? 0 then 0 else n
  end.

(** [obj[k] = (obj[k] || 0) + 1] on [statusCodes], whose keys are numbers
    and so never name a property of [Object.prototype]. *)
Definition increment `{Countable K} (k : K) (obj : gmap K Z) : gmap K Z :=
  <[k := or_zero (obj !! k) + 1]> obj.

Definition count_by_method (req : NetworkRequest) (r : RequestReport)
    : RequestReport :=
  {| totalRequests := totalRequests r;
     requestsByMethod := increment_property (method req) (requestsByMethod r);
     requestsByDomain := requestsByDomain r;
     requestsByType := requestsByType r;
     statusCodes := statusCodes r |}.

Definition count_domain (domain : jsstring) (r : RequestReport)
    : RequestReport :=
  {| totalRequests := totalRequests r;
     requestsByMethod := requestsByMethod r;
     requestsByDomain := increment_property domain (requestsByDomain r);
     requestsByType := requestsByType r;
     statusCodes := statusCodes r |}.

(** The [if]/[else if] chain on [req.url.includes(...)]. *)
Definition count_type (u : jsstring) (t : RequestsByType) : RequestsByType :=
  if includes u (js "api") || includes u (js "data") then
    {| api := api t + 1; data := data t; assets := assets t; other := other t |}
  else if includes u (js ".js") || includes u (js ".css")
          || includes u (js ".png") || includes u (js ".jpg") then
    {| api := api t; data := data t; assets := assets t + 1; other := other t |}
  else if includes u (js "match") || includes u (js "live") then
    {| api := api t; data := data t + 1; assets := assets t; other := other t |}
  else
    {| api := api t; data := data t; assets := assets t; other := other t + 1 |}.

Definition count_by_type (req : NetworkRequest) (r : RequestReport)
    : RequestReport :=
  {| totalRequests := totalRequests r;
     requestsByMethod := requestsByMethod r;
     requestsByDomain := requestsByDomain r;
     requestsByType := count_type (url req) (requestsByType r);
     statusCodes := statusCodes r |}.

Definition count_by_status (req : NetworkRequest) (r : RequestReport)
    : RequestReport :=
  if truthy_opt_number (status req) then
    match status req with
    | Some s =>
        {| totalRequests := totalRequests r;
           requestsByMethod := requestsByMethod r;
           requestsByDomain := requestsByDomain r;
           requestsByType := requestsByType r;
           statusCodes := increment s (statusCodes r) |}
    | None => r
    end
  else r.

Section WithURL.

(** The platform's URL parser: [URL_hostname s = Some h] when
    [new URL(s)] succeeds and its [hostname] is [h], [None] when the
    constructor throws. *)
Variable URL_hostname : jsstring → option jsstring.

Definition new_URL_hostname (s : jsstring) : completion jsstring :=
  match URL_hostname s with
  | Some h => Normal h
  | None => Throw (TypeError_InvalidURL s)
  end.

(** [try { ... } catch (e) { }] around the domain count. *)
Definition count_by_domain (req : NetworkRequest) (r : RequestReport)
    : completion RequestReport :=
  try_catch
    (domain ← new_URL_hostname (url req);
     mret (count_domain domain r))
    (λ _, mret r).

(** The body of [allRequests.forEach]. *)
Definition report_step (r : RequestReport) (req : NetworkRequest)
    : completion RequestReport :=
  r ← mret (count_by_method req r);
  r ← count_by_domain req r;
  r ← mret (count_by_type req r);
  mret (count_by_status req r).

Fixpoint forEach (reqs : list NetworkRequest) (r : RequestReport)
    : completion RequestReport :=
  match reqs with
  | [] => mret r
  | req :: reqs' => r' ← report_step r req; forEach reqs' r'
  end.

Definition empty_report (allRequests : list NetworkRequest) : RequestReport :=
  {| totalRequests := Z.of_nat (length allRequests);
     requestsByMethod := ∅;
     requestsByDomain := ∅;
     requestsByType := {| api := 0; data := 0; assets := 0; other := 0 |};
     statusCodes := ∅ |}.

(** The report generated from the collected requests. *)
Definition requestReport (allRequests : list NetworkRequest)
    : completion RequestReport :=
  forEach allRequests (empty_report allRequests).

End WithURL.

End ReportAggregator.

(** ** Statements of the specification, and sample inputs *)

Module Spec.
Import Validators NetworkObserver ReportAggregator.

(** *** Validators *)

(** "home/away team names are non-empty strings and a date is present" *)
Definition validateMatch_spec {number} (m : Match number) : Prop :=
  homeTeam m ≠ [] ∧ awayTeam m ≠ [] ∧ date m ≠ [].

(** "has no scores and a non-empty time string" *)
Definition upcoming_invariant {number} (m : Match number) : Prop :=
  (homeScore m = None ∧ awayScore m = None) ∧
  ∃ t, time m = Some t ∧ t ≠ [].

(** [{homeTeam: "A", awayTeam: "B", date: "2024-01-01"}] *)
Definition match_A_B : Match Z :=
  {| homeTeam := js "A"; awayTeam := js "B";
     homeScore := None; awayScore := None;
     date := js "2024-01-01"; time := None; state := None; link := None |}.

(** [{homeTeam: "", awayTeam: "B", date: "x"}] *)
Definition match_empty_home : Match Z :=
  {| homeTeam := js ""; awayTeam := js "B";
     homeScore := None; awayScore := None;
     date := js "x"; time := None; state := None; link := None |}.

(** [{homeTeam: " ", awayTeam: "B", date: "x"}] *)
Definition match_blank_home : Match Z :=
  {| homeTeam := js " "; awayTeam := js "B";
     homeScore := None; awayScore := None;
     date := js "x"; time := None; state := None; link := None |}.

(** [{homeTeam: "A", awayTeam: "B", homeScore: 2, date: "x", time: "20:00"}] *)
Definition match_half_scored : Match Z :=
  {| homeTeam := js "A"; awayTeam := js "B";
     homeScore := Some 2; awayScore := None;
     date := js "x"; time := Some (js "20:00"); state := None; link := None |}.

(** [{homeTeam: "A", awayTeam: "B", homeScore: 2, awayScore: 1, date: "x"}] *)
Definition match_scored : Match Z :=
  {| homeTeam := js "A"; awayTeam := js "B";
     homeScore := Some 2; awayScore := Some 1;
     date := js "x"; time := None; state := None; link := None |}.

(** [{homeTeam: "A", awayTeam: "B", date: "x", time: "20:00"}] *)
Definition match_scheduled : Match Z :=
  {| homeTeam := js "A"; awayTeam := js "B";
     homeScore := None; awayScore := None;
     date := js "x"; time := Some (js "20:00"); state := None; link := None |}.

(** *** Network observer *)

(** "the earliest unmatched record with matching URL (no responseTime yet
    assigned)": the test the specification describes. *)
Definition unmatched (response : Response) (req : NetworkRequest) : Prop :=
  url req = response_url response ∧ responseTime req = None.

#[global] Instance unmatched_dec response req : Decision (unmatched response req).
Proof. unfold unmatched. apply _. Defined.

(** The response listener as the specification describes it. *)
Definition on_response_spec (now : Z) (response : Response)
    (networkRequests : list NetworkRequest) : list NetworkRequest :=
  match list_find (unmatched response) networkRequests with
  | Some (i, request) => <[i := resolve now response request]> networkRequests
  | None => networkRequests
  end.

(** The response is matched to the record [request] at index [i]. *)
Definition matched_to (response : Response)
    (networkRequests : list NetworkRequest) (i : nat)
    (request : NetworkRequest) : Prop :=
  list_find (λ req, find_pred response req = true) networkRequests
    = Some (i, request).

(** "the response carried a ... header" *)
Definition carried (response : Response) (name : jsstring) : Prop :=
  is_Some (response_headers response !! name).


(** "the record's cached flag is true iff the response carried a
    cache-control or etag header", for the record matched. *)
Definition cached_iff_carried (now : Z) (response : Response)
    (networkRequests : list NetworkRequest) : Prop :=
  ∀ i request, matched_to response networkRequests i request →
    ∃ request', on_response now response networkRequests !! i = Some request' ∧
      (cached request' = Some true ↔
       carried response (js "cache-control") ∨ carried response (js "etag")).

Definition live_url : jsstring := js "https://www.one.co.il/live/".

Definition get_live : Request :=
  {| request_url := live_url; request_method := js "GET" |}.

Definition live_200 : Response :=
  {| response_url := live_url; response_status := 200;
     response_headers := ∅ |}.

Definition live_404 : Response :=
  {| response_url := live_url; response_status := 404;
     response_headers := ∅ |}.

(** A response whose only caching header is [ETag] with an empty value. *)
Definition live_empty_etag : Response :=
  {| response_url := live_url; response_status := 200;
     response_headers := {[ js "etag" := js "" ]} |}.


(** The record pushed for [get_live] at time [t]. *)
Definition pending (t : Z) : NetworkRequest :=
  {| url := live_url; method := js "GET"; timestamp := t;
     responseTime := None; cached := None; status := None |}.

(** A request answered within the millisecond it was issued in, then a
    second request to the same URL, still pending. *)
Definition same_millisecond_trace : list event :=
  [ RequestIssued 1000 get_live;
    ResponseReceived 1000 live_200;
    RequestIssued 1001 get_live ].

(** *** Report aggregator *)

Inductive CoarseType := Api | Data | Assets | Other.

#[global] Instance CoarseType_eq_dec : EqDecision CoarseType.
Proof. solve_decision. Defined.

(** The substrings that select each type. *)
Definition matches (ty : CoarseType) (u : jsstring) : bool :=
  match ty with
  | Api => includes u (js "api") || includes u (js "data")
  | Assets => includes u (js ".js") || includes u (js ".css")
              || includes u (js ".png") || includes u (js ".jpg")
  | Data => includes u (js "match") || includes u (js "live")
  | Other => true
  end.

(** "first match wins" over a list of types tried in order. *)
Fixpoint first_match (order : list CoarseType) (u : jsstring) : CoarseType :=
  match order with
  | [] => Other
  | ty :: order' => if matches ty u then ty else first_match order' u
  end.

(** The order in which the specification lists the types. *)
Definition listed_order : list CoarseType := [Api; Data; Assets; Other].

(** The order in which the report tests them. *)
Definition tested_order : list CoarseType := [Api; Assets; Data; Other].

(** One more request of type [ty]. *)
Definition bump (ty : CoarseType) (t : RequestsByType) : RequestsByType :=
  match ty with
  | Api => {| api := api t + 1; data := data t; assets := assets t; other := other t |}
  | Data => {| api := api t; data := data t + 1; assets := assets t; other := other t |}
  | Assets => {| api := api t; data := data t; assets := assets t + 1; other := other t |}
  | Other => {| api := api t; data := data t; assets := assets t; other := other t + 1 |}
  end.

(** The counter of a map after [n] more increments of a key that read [o]
    before. *)
Definition tally (o : option Z) (n : nat) : option Z :=
  match n with
  | O => o
  | S _ => Some (or_zero o + Z.of_nat n)
  end.

(** A counter of the report: absent when nothing was counted. *)
Definition count_opt (n : nat) : option Z :=
  match n with
  | O => None
  | S _ => Some (Z.of_nat n)
  end.

(** An entry of [requestsByMethod] or [requestsByDomain] that counts [n]
    requests: absent when nothing was counted. *)
Definition count_value (n : nat) : option jsvalue :=
  match n with
  | O => None
  | S _ => Some (JNumber (Z.of_nat n))
  end.

(** The own property [k] after one increment of [k], from what it was. *)
Definition after_increment (k : jsstring) (own : option jsvalue)
    : option jsvalue :=
  if bool_decide (k = js "__proto__") then own
  else Some (or_zero_plus_one (read_property own k)).

(** The own property [k] after [n] increments of [k]. *)
Definition after_increments (k : jsstring) (n : nat) (own : option jsvalue)
    : option jsvalue :=
  Nat.iter n (after_increment k) own.

(** The digit ["1"], [n] times. *)
Definition ones (n : nat) : jsstring := replicate n 0x31%N.

(** The number of requests that satisfy [P]. *)
Definition number_of (P : NetworkRequest → Prop) `{∀ r, Decision (P r)}
    (reqs : list NetworkRequest) : nat :=
  length (filter P reqs).

Definition script_url : jsstring := js "https://www.one.co.il/live/main.js".

Definition no_requests_by_type : RequestsByType :=
  {| api := 0; data := 0; assets := 0; other := 0 |}.

(** A stand-in for the platform's parser on the sample inputs: it accepts
    what starts with [https://] and reads the host up to the next [/]. *)
Fixpoint up_to_slash (s : jsstring) : jsstring :=
  match s with
  | [] => []
  | c :: s' => if (c =? 0x2F)%N then [] else c :: up_to_slash s'
  end.

Definition sample_hostname (u : jsstring) : option jsstring :=
  if startsWith u (js "https://") then Some (up_to_slash (drop 8 u)) else None.

Definition recorded (u m : string) : NetworkRequest :=
  {| url := js u; method := js m; timestamp := 0;
     responseTime := None; cached := None; status := None |}.

(** A GET and a request whose method is [__proto__]. *)
Definition get_and_proto : list NetworkRequest :=
  [ recorded "https://www.one.co.il/live/" "GET";
    recorded "https://www.one.co.il/live/" "__proto__" ].

(** A GET and a request whose method is [constructor]. *)
Definition get_and_constructor : list NetworkRequest :=
  [ recorded "https://www.one.co.il/live/" "GET";
    recorded "https://www.one.co.il/live/" "constructor" ].

(** A request to the host [constructor]. *)
Definition to_constructor_host : NetworkRequest :=
  recorded "https://constructor/live/" "GET".

Definition get_get_post : list NetworkRequest :=
  [ recorded "https://www.one.co.il/live/" "GET";
    recorded "not a url" "GET";
    recorded "https://api.one.co.il/vote" "POST" ].

End Spec.

(** ** The listeners of the "HTTP Request Report" test *)

Module ReportObserver.
Import NetworkObserver.

(** [page.on("request", ...)] filling [allRequests]. *)
Definition on_request (now : Z) (request : Request)
    (allRequests : list NetworkRequest) : list NetworkRequest :=
  allRequests ++
  [ {| url := request_url request;
       method := request_method request;
       timestamp := now;
       responseTime := None;
       cached := None;
       status := None |} ].

(** The predicate handed to [allRequests.find]:
    [req.url === response.url() && !req.status]. *)
Definition find_pred (response : Response) (req : NetworkRequest) : bool :=
  bool_decide (url req = response_url response) &&
  negb (truthy_opt_number (status req)).

(** The two assignments made on the record that was found. *)
Definition resolve (now : Z) (response : Response)
    (request : NetworkRequest) : NetworkRequest :=
  {| url := url request;
     method := method request;
     timestamp := timestamp request;
     responseTime := Some (now - timestamp request);
     cached := cached request;
     status := Some (response_status response) |}.

(** [page.on("response", ...)] of the report test. *)
Definition on_response (now : Z) (response : Response)
    (allRequests : list NetworkRequest) : list NetworkRequest :=
  match list_find (λ req, find_pred response req = true) allRequests with
  | Some (i, request) => <[i := resolve now response request]> allRequests
  | None => allRequests
  end.

Definition handle (allRequests : list NetworkRequest) (e : event)
    : list NetworkRequest :=
  match e with
  | RequestIssued now request => on_request now request allRequests
  | ResponseReceived now response => on_response now response allRequests
  end.

(** [allRequests] after a run of events, starting from the empty array. *)
Definition collect (events : list event) : list NetworkRequest :=
  foldl handle [] events.

End ReportObserver.

(** ** The response listeners of the caching test *)

Module CacheTest.
Import NetworkObserver.

(** The URLs the caching test keeps. *)
Definition tracked (u : jsstring) : bool :=
  includes u (js "api") || includes u (js "data")
  || includes u (js "match") || includes u (js "live").

(** [page.on("response", ...)] pushing to [firstLoadRequests] (and, on the
    second load, to [secondLoadRequests]). *)
Definition on_response (now : Z) (response : Response)
    (loadRequests : list NetworkRequest) : list NetworkRequest :=
  let u := response_url response in
  if tracked u then
    loadRequests ++
    [ {| url := u;
         method := js "GET";
         timestamp := now;
         responseTime := Some 0;
         cached := None;
         status := None |} ]
  else loadRequests.

(** The array after the responses of one load, each with the clock reading
    of its listener. *)
Definition load (responses : list (Z * Response)) : list NetworkRequest :=
  foldl (λ loadRequests r, on_response r.1 r.2 loadRequests) [] responses.

End CacheTest.

(** ** The fallback over selectors of the match list test *)

Module DomFallback.

(** The double quote, as a string. *)
Definition dq : jsstring := [0x22%N].

(** [SELECTORS.matchItem] *)
Definition matchItem : jsstring :=
  js ".match-item, .match, [class*=" ++ dq ++ js "match" ++ dq
  ++ js "], [data-match]".

(** The [alternatives] array. *)
Definition alternatives : list jsstring :=
  [ js "div[class*=" ++ dq ++ js "match" ++ dq ++ js "]";
    js "div[class*=" ++ dq ++ js "Match" ++ dq ++ js "]";
    js "[data-match]";
    js "li[class*=" ++ dq ++ js "match" ++ dq ++ js "]";
    js "tr[class*=" ++ dq ++ js "match" ++ dq ++ js "]" ].

Section WithDocument.

(** The elements of the document, and [document.querySelectorAll] on the
    document as it is while the page script runs. *)
Context {Element : Type}.
Variable querySelectorAll : jsstring → list Element.

(** [for (const alt of alternatives) { matchElements = ...; if
    (matchElements.length > 0) break; }] *)
Fixpoint try_alternatives (alts : list jsstring) (matchElements : list Element)
    : list Element :=
  match alts with
  | [] => matchElements
  | alt :: alts' =>
      let matchElements := querySelectorAll alt in
      if (0 <? length matchElements)%nat then matchElements
      else try_alternatives alts' matchElements
  end.

(** The elements the match list test maps over, for a primary selector and a
    list of alternatives. *)
Definition select_elements (primary : jsstring) (alts : list jsstring)
    : list Element :=
  let matchElements := querySelectorAll primary in
  if (length matchElements =? 0)%nat then try_alternatives alts matchElements
  else matchElements.

Definition matchElements : list Element :=
  select_elements matchItem alternatives.

End WithDocument.

End DomFallback.

(** ** The link checks of the navigation test *)

Module LinkNavigation.

(** The callback of [links.map]: the [href] attribute, or [null] when it is
    missing, empty or ["#"]. *)
Definition valid_href (href : option jsstring) : option jsstring :=
  match href with
  | None => None
  | Some h =>
      if truthy_string h && negb (bool_decide (h = js "#"))
         && negb (bool_decide (h = js ""))
      then Some h else None
  end.

(** [links.map(...).filter((href) => href !== null)], on the [href]
    attributes of the links in document order. *)
Definition validLinks (hrefs : list (option jsstring)) : list (option jsstring) :=
  filter (λ href, href ≠ None) (valid_href <$> hrefs).

Record LinkInfo := mkLinkInfo {
  linkCount : nat;
  validLinkCount : nat;
  firstValidLink : option jsstring
}.

(** [x || null] on an element read from [validLinks]. *)
Definition or_null (x : option (option jsstring)) : option jsstring :=
  match x with
  | Some (Some h) => if truthy_string h then Some h else None
  | _ => None
  end.

Definition linkInfo (hrefs : list (option jsstring)) : LinkInfo :=
  {| linkCount := length hrefs;
     validLinkCount := length (validLinks hrefs);
     firstValidLink := or_null (validLinks hrefs !! 0%nat) |}.

(** The class [[.*+?^${}()|[\]\\]] of the escaping. *)
Definition is_special (c : N) : bool :=
  ((c =? 0x2E) || (c =? 0x2A) || (c =? 0x2B) || (c =? 0x3F) || (c =? 0x5E)
   || (c =? 0x24) || (c =? 0x7B) || (c =? 0x7D) || (c =? 0x28) || (c =? 0x29)
   || (c =? 0x7C) || (c =? 0x5B) || (c =? 0x5D) || (c =? 0x5C))%N.

(** [replace(/[.*+?^${}()|[\]\\]/g, "\\$&")]: a backslash before each
    character of the class. *)
Fixpoint escapedHref (href : jsstring) : jsstring :=
  match href with
  | [] => []
  | c :: href' =>
      if is_special c then 0x5C%N :: c :: escapedHref href'
      else c :: escapedHref href'
  end.

(** [String.prototype.split] with a separator of one code unit. *)
Fixpoint split (sep : N) (s : jsstring) : list jsstring :=
  match s with
  | [] => [[]]
  | c :: s' =>
      if (c =? sep)%N then [] :: split sep s'
      else match split sep s' with
           | [] => [[c]]
           | seg :: segs => (c :: seg) :: segs
           end
  end.

(** [Array.prototype.pop], for the value it returns. *)
Definition pop {A} (l : list A) : option A := last l.

(** [firstValidLink.split("/").pop()], the needle of the second selector. *)
Definition last_segment (href : jsstring) : option jsstring :=
  pop (split 0x2F%N href).

(** [newUrl !== originalUrl || newUrl.includes("#")] *)
Definition urlChanged (originalUrl newUrl : jsstring) : bool :=
  negb (bool_decide (newUrl = originalUrl)) || includes newUrl (js "#").

(** The value handed to [expect(...).toBe(true)] after the click. *)
Definition navigation_expectation (info : LinkInfo)
    (originalUrl newUrl : jsstring) : bool :=
  urlChanged originalUrl newUrl || (0 <? validLinkCount info)%nat.

End LinkNavigation.

(** ** The checks of the goal sorting test *)

Module GoalSorting.

(** The predicate of the filter on the [href] attributes. *)
Definition is_match_link (href : option jsstring) : bool :=
  match href with
  | None => false
  | Some h =>
      includes h (js "match") || includes h (js "game") || includes h (js "stats")
  end.

(** [links.map(...).filter(...).slice(0, 3)] *)
Definition matchLinks (hrefs : list (option jsstring)) : list (option jsstring) :=
  take 3 (filter (λ href, is_match_link href = true) hrefs).

(** The loop over adjacent scorers: [false] at the first pair in which the
    earlier scorer has fewer goals.  Goals are the integers read from the
    page. *)
Fixpoint isSorted (goals : list Z) : bool :=
  match goals with
  | a :: (b :: _) as rest => if a <? b then false else isSorted rest
  | _ => true
  end.

End GoalSorting.

(** ** Sample inputs for the listeners and checks *)

Module Samples.
Import NetworkObserver.

Definition one_url : jsstring := js "https://www.one.co.il/live/".
Definition vote_url : jsstring := js "https://api.one.co.il/vote".
Definition logo_url : jsstring := js "https://www.one.co.il/logo.svg".

Definition get_one : Request :=
  {| request_url := one_url; request_method := js "GET" |}.

Definition post_vote : Request :=
  {| request_url := vote_url; request_method := js "POST" |}.

Definition one_200 : Response :=
  {| response_url := one_url; response_status := 200;
     response_headers := {[ js "etag" := js "W/1" ]} |}.

Definition logo_200 : Response :=
  {| response_url := logo_url; response_status := 200; response_headers := ∅ |}.

Definition vote_201 : Response :=
  {| response_url := vote_url; response_status := 201; response_headers := ∅ |}.

(** Two requests, the answer to the first, then the answer to the second. *)
Definition two_requests_trace : list event :=
  [ RequestIssued 1000 get_one;
    RequestIssued 1002 post_vote;
    ResponseReceived 1010 one_200;
    ResponseReceived 1015 vote_201 ].

(** The first record of [two_requests_trace], once resolved. *)
Definition one_resolved : NetworkRequest :=
  {| url := one_url; method := js "GET"; timestamp := 1000;
     responseTime := Some 10; cached := Some true; status := Some 200 |}.

(** The [href] attributes of a page: a link without [href], an anchor
    link, an empty one, and two links to pages. *)
Definition page_hrefs : list (option jsstring) :=
  [ None; Some (js "#"); Some (js ""); Some (js "/live/match/12");
    Some (js "/news") ].

End Samples.

(** ** Vocabulary for runs of events *)

Module Trace.
Import NetworkObserver.

(** What a record keeps of the request it was pushed for. *)
Definition identity (r : NetworkRequest) : jsstring * jsstring * Z :=
  (url r, method r, timestamp r).

Definition issued_of (e : event) : option (jsstring * jsstring * Z) :=
  match e with
  | RequestIssued now request =>
      Some (request_url request, request_method request, now)
  | ResponseReceived _ _ => None
  end.

(** The request events of a run, in order. *)
Definition issued (events : list event) : list (jsstring * jsstring * Z) :=
  omap issued_of events.

(** The clock reading a listener takes for an event. *)
Definition clock (e : event) : Z :=
  match e with
  | RequestIssued now _ => now
  | ResponseReceived now _ => now
  end.

(** A record no response has been assigned to. *)
Definition pending (r : NetworkRequest) : Prop :=
  responseTime r = None ∧ cached r = None ∧ status r = None.

(** A record that carries all three results of a response. *)
Definition resolved (r : NetworkRequest) : Prop :=
  is_Some (responseTime r) ∧ is_Some (cached r) ∧ is_Some (status r).

(** The record has been given a response time other than zero. *)
Definition settled (r : NetworkRequest) : Prop :=
  ∃ n, responseTime r = Some n ∧ n ≠ 0.

End Trace.

(** ** Properties of the string primitives *)

Module JsStringFacts.

Lemma trimStart_nil_iff (s : jsstring) :
  trimStart s = [] ↔ Forall (λ c, is_trimmable c = true) s.
Proof.
  induction s as [|c s IH]; simpl.
  - split; [constructor | done].
  - destruct (is_trimmable c) eqn:Hc.
    + rewrite IH. split.
      * by constructor.
      * by inversion 1.
    + split; [done |]. inversion 1; congruence.
Qed.

Lemma trimStart_suffix (s : jsstring) : ∃ p, s = p ++ trimStart s.
Proof.
  induction s as [|c s [p IH]]; simpl.
  - by exists [].
  - destruct (is_trimmable c).
    + exists (c :: p). simpl. by rewrite <- IH.
    + by exists [].
Qed.

Lemma trimStart_head (s : jsstring) c t :
  trimStart s = c :: t → is_trimmable c = false.
Proof.
  induction s as [|d s IH]; simpl; [done |].
  destruct (is_trimmable d) eqn:Hd; [done |].
  intros [= -> _]. done.
Qed.

(** A string survives [trim] exactly when it holds a code unit that is
    neither white space nor a line terminator. *)
Lemma trim_nonempty_iff (s : jsstring) :
  trim s ≠ [] ↔ Exists (λ c, is_trimmable c = false) s.
Proof.
  unfold trim, trimEnd.
  assert (Hne : ∀ t : jsstring,
    trimStart t ≠ [] ↔ Exists (λ c, is_trimmable c = false) t).
  { induction t as [|c t IH]; simpl.
    - split; [done | by inversion 1].
    - destruct (is_trimmable c) eqn:Hc.
      + rewrite IH. split; [by right |]. inversion 1; congruence.
      + split; [by left | done]. }
  split.
  - intros H. apply Hne. intros Hnil. apply H. by rewrite Hnil.
  - intros H. apply Hne in H.
    destruct (trimStart s) as [|c t] eqn:Hs; [done |].
    apply trimStart_head in Hs as Hc.
    intros Hrev. apply (f_equal (@rev N)) in Hrev.
    rewrite rev_involutive in Hrev. simpl rev at 2 in Hrev.
    revert Hrev. apply Hne, Exists_exists. exists c. split; [| done].
    apply list_elem_of_In, in_rev. rewrite rev_involutive. by left.
Qed.

Lemma trim_nonempty_truthy (s : jsstring) :
  trim s ≠ [] → truthy_string s = true.
Proof. destruct s; [by intros H; exfalso; apply H | done]. Qed.

Lemma length_pos_iff {A} (l : list A) : (0 <? length l)%nat = true ↔ l ≠ [].
Proof.
  destruct l as [|x l]; split; intros H; done.
Qed.

Lemma startsWith_iff (s p : jsstring) :
  startsWith s p = true ↔ ∃ r, s = p ++ r.
Proof.
  revert s. induction p as [|a p IH]; intros s.
  - destruct s; (split; [eauto | done]).
  - destruct s as [|b s]; simpl.
    + split; [done | by intros [r Hr]].
    + rewrite andb_true_iff, N.eqb_eq, IH. split.
      * intros [-> [r ->]]. by exists r.
      * intros [r [= -> ->]]. eauto.
Qed.

(** [includes] decides the substring relation. *)
Lemma includes_iff (s p : jsstring) :
  includes s p = true ↔ ∃ l r, s = l ++ p ++ r.
Proof.
  induction s as [|c s IH]; cbn [includes].
  - rewrite orb_false_r, startsWith_iff. split.
    + intros [r Hr]. by exists [], r.
    + intros [l [r Hr]]. destruct l; simpl in Hr; [by exists r |].
      discriminate.
  - rewrite orb_true_iff, startsWith_iff, IH. split.
    + intros [[r Hr] | [l [r ->]]].
      * by exists [], r.
      * by exists (c :: l), r.
    + intros [[|d l] [r Hr]]; simpl in Hr.
      * left. by exists r.
      * right. injection Hr as -> ->. by exists l, r.
Qed.

End JsStringFacts.

(** ** Properties of the validators *)

Module ValidatorsFacts.
Import Validators Spec JsStringFacts.

Section WithNumber.
Context {number : Type}.
Implicit Type m : Match number.

Lemma isPlayedMatch_iff m :
  isPlayedMatch m = true ↔ is_Some (homeScore m) ∧ is_Some (awayScore m).
Proof.
  unfold isPlayedMatch.
  destruct (homeScore m), (awayScore m); simpl; split;
    try done; try (by intros [[? [=]] ?]); try (by intros [? [? [=]]]).
Qed.

Lemma validateMatch_iff m :
  validateMatch m = true ↔
  trim (homeTeam m) ≠ [] ∧ trim (awayTeam m) ≠ [] ∧ date m ≠ [].
Proof.
  unfold validateMatch, typeof_string.
  rewrite !bool_decide_eq_true_2 by done.
  rewrite !andb_true_r, !andb_true_iff, !length_pos_iff.
  split.
  - intros [[[[_ _] Hd] Hh] Ha]. repeat split; [done | done |].
    by destruct (date m).
  - intros (Hh & Ha & Hd).
    repeat split; auto using trim_nonempty_truthy.
    by destruct (date m).
Qed.

End WithNumber.

(** C7: a match whose [homeScore] and [awayScore] are both defined numbers
    is played, and a match that lacks either score is not. *)
Theorem isPlayedMatch_scores {number} (m : Match number) :
  (∀ h a, homeScore m = Some h → awayScore m = Some a →
          isPlayedMatch m = true) ∧
  (homeScore m = None ∨ awayScore m = None → isPlayedMatch m = false).
Proof.
  split.
  - intros h a Hh Ha. apply isPlayedMatch_iff. rewrite Hh, Ha. eauto.
  - intros Hnone. apply not_true_is_false. rewrite isPlayedMatch_iff.
    intros [[h Hh] [a Ha]]. destruct Hnone; congruence.
Qed.

Lemma isPlayedMatch_scores_witness :
  isPlayedMatch match_scored = true ∧
  isPlayedMatch match_half_scored = false.
Proof.
  split.
  - apply (proj1 (isPlayedMatch_scores match_scored) 2 1); reflexivity.
  - apply (proj2 (isPlayedMatch_scores match_half_scored)).
    right. reflexivity.
Defined.

(** C2: a match with a home score, no away score and a time is upcoming
    for [isUpcomingMatch], which is documented as "(no scores, has time)":
    the test [!isPlayedMatch(match)] holds as soon as one score is
    missing. *)
Theorem isUpcomingMatch_with_one_score :
  homeScore match_half_scored = Some 2 ∧
  awayScore match_half_scored = None ∧
  isPlayedMatch match_half_scored = false ∧
  isUpcomingMatch match_half_scored = true ∧
  ¬ upcoming_invariant match_half_scored.
Proof.
  repeat split. intros [[Hh _] _]. discriminate Hh.
Qed.

(** On that match, being upcoming does not give the invariant of upcoming
    matches. *)
Lemma isUpcomingMatch_half_scored :
  ¬ (isUpcomingMatch match_half_scored = true →
     upcoming_invariant match_half_scored).
Proof.
  intros H. destruct H as [[Hh _] _]; [reflexivity | discriminate Hh].
Qed.

(** What [isUpcomingMatch] does give: the match is not played, that is, at
    least one of its two scores is absent, and its time is a string that is
    non-empty, also once trimmed. *)
Theorem isUpcomingMatch_not_played {number} (m : Match number) :
  isUpcomingMatch m = true →
  isPlayedMatch m = false ∧
  (homeScore m = None ∨ awayScore m = None) ∧
  ∃ t, time m = Some t ∧ t ≠ [] ∧ trim t ≠ [].
Proof.
  unfold isUpcomingMatch. rewrite andb_true_iff, negb_true_iff.
  intros [Hnp Ht]. split; [done |]. split.
  - destruct (homeScore m) as [h|] eqn:Hh; [| by left].
    destruct (awayScore m) as [a|] eqn:Ha; [| by right].
    assert (isPlayedMatch m = true) as Hp; [| congruence].
    apply isPlayedMatch_iff. rewrite Hh, Ha. eauto.
  - destruct (time m) as [t|]; [| done].
    apply length_pos_iff in Ht. exists t. repeat split; [| done].
    intros ->. by apply Ht.
Qed.

Lemma isUpcomingMatch_not_played_witness :
  isPlayedMatch match_scheduled = false ∧
  (homeScore match_scheduled = None ∨ awayScore match_scheduled = None) ∧
  ∃ t, time match_scheduled = Some t ∧ t ≠ [] ∧ trim t ≠ [].
Proof. apply (isUpcomingMatch_not_played match_scheduled). reflexivity. Defined.

(** C8, as stated, fails: a home team name made of one space is a
    non-empty string, and the date is present, yet the match is not valid. *)
Lemma validateMatch_blank_home :
  ¬ (validateMatch match_blank_home = true ↔
     validateMatch_spec match_blank_home).
Proof.
  intros [_ H]. enough (validateMatch match_blank_home = true) by done.
  apply H. repeat split; discriminate.
Qed.

(** C8, amended: [validateMatch] holds exactly when both team names are
    non-empty once trimmed of white space and the date is a non-empty
    string; it holds of [{homeTeam: "A", awayTeam: "B", date:
    "2024-01-01"}] and not of [{homeTeam: "", awayTeam: "B", date: "x"}]. *)
Theorem validateMatch_trimmed {number} (m : Match number) :
  (validateMatch m = true ↔
   trim (homeTeam m) ≠ [] ∧ trim (awayTeam m) ≠ [] ∧ date m ≠ []) ∧
  validateMatch match_A_B = true ∧
  validateMatch match_empty_home = false.
Proof. split; [apply validateMatch_iff | split; reflexivity]. Qed.

(** The three sample calls of [validateTeamName]: a blank name, a team
    name, and [undefined]. *)
Example validateTeamName_samples :
  validateTeamName (Some (Some (js "  "))) = false ∧
  validateTeamName (Some (Some (js "Maccabi Tel Aviv"))) = true ∧
  validateTeamName (Some None) = false.
Proof. repeat split. Qed.

End ValidatorsFacts.

(** ** Properties of the network observer *)

Module NetworkObserverFacts.
Import NetworkObserver Spec.


(** The records the listener takes for unresolved: those of the response's
    URL whose [responseTime] is absent, or present and zero. *)
Lemma find_pred_iff response req :
  find_pred response req = true ↔
  url req = response_url response ∧
  (responseTime req = None ∨ responseTime req = Some 0).
Proof.
  unfold find_pred, truthy_opt_number.
  rewrite andb_true_iff, bool_decide_eq_true, negb_true_iff.
  destruct (responseTime req) as [n|]; simpl.
  - rewrite negb_false_iff, Z.eqb_eq. split.
    + intros [? ->]. auto.
    + intros [? [[=] | [= ->]]]. auto.
  - split; intros [? _]; auto.
Qed.


Lemma on_response_unmatched now response reqs :
  Forall (λ req, find_pred response req = false) reqs →
  on_response now response reqs = reqs.
Proof.
  intros Hall. unfold on_response.
  destruct (list_find _ reqs) as [[i request]|] eqn:Hfind; [| done].
  apply list_find_Some in Hfind as (Hi & Hp & _).
  rewrite Forall_forall in Hall.
  rewrite (Hall request) in Hp; [done |].
  by eapply list_elem_of_lookup_2.
Qed.

(** What a response event does to the array: the first record the
    listener takes for unresolved is replaced by its resolution, and
    nothing else changes; without such a record the array is left as it
    is. *)
Lemma on_response_cases now response reqs :
  (∃ i request,
      reqs !! i = Some request ∧
      find_pred response request = true ∧
      (∀ j y, reqs !! j = Some y → (j < i)%nat → find_pred response y = false) ∧
      on_response now response reqs !! i = Some (resolve now response request) ∧
      (∀ j, j ≠ i → on_response now response reqs !! j = reqs !! j)) ∨
  (Forall (λ req, find_pred response req = false) reqs ∧
   on_response now response reqs = reqs).
Proof.
  unfold on_response.
  destruct (list_find _ reqs) as [[i request]|] eqn:Hfind.
  - left. apply list_find_Some in Hfind as (Hi & Hp & Hfirst).
    exists i, request. repeat split; [done | done | | |].
    + intros j y Hj Hlt. apply not_true_is_false. by eapply Hfirst.
    + apply list_lookup_insert_eq. by eapply lookup_lt_Some.
    + intros j Hne. by apply list_lookup_insert_ne.
  - right. split; [| done].
    apply list_find_None in Hfind. eapply Forall_impl; [exact Hfind |].
    intros req Hreq. by apply not_true_is_false.
Qed.

Lemma on_response_length now response reqs :
  length (on_response now response reqs) = length reqs.
Proof.
  unfold on_response.
  destruct (list_find _ reqs) as [[i request]|]; [| done].
  apply length_insert.
Qed.

(** On an array in which no response time is zero, the listener does what
    the specification describes. *)
Lemma on_response_spec_nonzero now response reqs :
  Forall (λ req, responseTime req ≠ Some 0) reqs →
  on_response now response reqs = on_response_spec now response reqs.
Proof.
  intros Hnz. unfold on_response, on_response_spec.
  assert (list_find (λ req, find_pred response req = true) reqs
          = list_find (unmatched response) reqs) as ->; [| done].
  induction Hnz as [|req reqs Hreq _ IH]; [done |].
  assert (find_pred response req = true ↔ unmatched response req) as Hiff.
  { rewrite find_pred_iff. unfold unmatched.
    split; [intros [? [?|?]]; [done | congruence] | intros [? ?]; auto]. }
  cbn [list_find]. rewrite IH.
  destruct (decide (find_pred response req = true)),
           (decide (unmatched response req)); tauto || done.
Qed.

(** C3: a request answered by a response that carries an [ETag] header
    with an empty value: the record gets [cached = false], although the
    listener is there to "Check for cache headers" and the header is
    present; [!!(cacheControl || etag)] tests the values, not the
    presence. *)
Theorem cached_false_with_empty_etag :
  response_headers live_empty_etag !! js "etag" = Some (js "") ∧
  carried live_empty_etag (js "etag") ∧
  observe [ RequestIssued 1001 get_live; ResponseReceived 1005 live_empty_etag ] =
    [ {| url := live_url; method := js "GET"; timestamp := 1001;
         responseTime := Some 4; cached := Some false; status := Some 200 |} ].
Proof.
  repeat split; try (vm_compute; reflexivity).
  exists []. vm_compute. reflexivity.
Qed.

(** On that response the flag is not the presence of the two headers. *)
Lemma cached_false_on_empty_etag :
  ¬ cached_iff_carried 1005 live_empty_etag [pending 1001].
Proof.
  intros H. destruct (H 0%nat (pending 1001)) as (r & Hr & Hiff).
  { unfold matched_to. vm_compute. reflexivity. }
  vm_compute in Hr. injection Hr as <-.
  assert (Some false = Some true) as Habs; [| discriminate Habs].
  apply Hiff. right. exists []. vm_compute. reflexivity.
Qed.



(** C4: after a request answered within the millisecond it was issued in,
    a second request to the same URL and a second response, the listener
    overwrites the record already resolved (its [responseTime] is [0])
    and leaves the second record pending, where the earliest record with
    no [responseTime] assigned is the second one. *)
Theorem on_response_zero_elapsed :
  observe same_millisecond_trace =
    [ {| url := live_url; method := js "GET"; timestamp := 1000;
         responseTime := Some 0; cached := Some false; status := Some 200 |};
      pending 1001 ] ∧
  list_find (unmatched live_404) (observe same_millisecond_trace)
    = Some (1%nat, pending 1001) ∧
  on_response 1005 live_404 (observe same_millisecond_trace) =
    [ {| url := live_url; method := js "GET"; timestamp := 1000;
         responseTime := Some 5; cached := Some false; status := Some 404 |};
      pending 1001 ] ∧
  on_response_spec 1005 live_404 (observe same_millisecond_trace) =
    [ {| url := live_url; method := js "GET"; timestamp := 1000;
         responseTime := Some 0; cached := Some false; status := Some 200 |};
      {| url := live_url; method := js "GET"; timestamp := 1001;
         responseTime := Some 4; cached := Some false; status := Some 404 |} ].
Proof. repeat split; vm_compute; reflexivity. Qed.

End NetworkObserverFacts.

(** ** Properties of the report *)

Module ReportAggregatorFacts.
Import NetworkObserver ReportAggregator Spec.

Lemma or_zero_Some (x : Z) : or_zero (Some x) = x.
Proof. simpl. destruct (Z.eqb_spec x 0); congruence. Qed.

Lemma tally_None n : tally None n = count_opt n.
Proof. by destruct n. Qed.

Lemma tally_succ o n : tally (Some (or_zero o + 1)) n = tally o (S n).
Proof.
  destruct n as [|n]; unfold tally.
  - done.
  - rewrite or_zero_Some. f_equal. lia.
Qed.

Lemma lookup_increment `{Countable K} (k j : K) (obj : gmap K Z) :
  increment k obj !! j =
  if decide (k = j) then Some (or_zero (obj !! k) + 1) else obj !! j.
Proof. unfold increment. apply lookup_insert. Qed.

(** A key read after one more increment: one more when the increment was
    of that key, untouched otherwise. *)
Lemma tally_increment `{Countable K} (k j : K) (obj : gmap K Z) n :
  tally (increment k obj !! j) n =
  tally (obj !! j) (if decide (k = j) then S n else n).
Proof.
  rewrite lookup_increment. destruct (decide (k = j)) as [->|]; [| done].
  apply tally_succ.
Qed.

Lemma number_of_cons (P : NetworkRequest → Prop) `{∀ r, Decision (P r)} req reqs :
  number_of P (req :: reqs) =
  if decide (P req) then S (number_of P reqs) else number_of P reqs.
Proof. unfold number_of. rewrite filter_cons. by destruct (decide (P req)). Qed.

(** The chain of tests picks the first type of [tested_order] that
    matches. *)
Lemma count_type_first_match u t :
  count_type u t = bump (first_match tested_order u) t.
Proof.
  unfold count_type, tested_order, first_match, matches.
  repeat (case_match; try done).
Qed.

Lemma bump_inj ty ty' t : bump ty t = bump ty' t → ty = ty'.
Proof. destruct ty, ty'; simpl; intros [=]; try done; lia. Qed.

Lemma lookup_increment_property (k j : jsstring) (obj : gmap jsstring jsvalue) :
  increment_property k obj !! j =
  if decide (k = j) then after_increment k (obj !! k) else obj !! j.
Proof.
  unfold increment_property, assign, after_increment, get.
  destruct (bool_decide (k = js "__proto__")).
  - by destruct (decide (k = j)) as [->|].
  - apply lookup_insert.
Qed.

Lemma after_increments_succ k n own :
  after_increments k n (after_increment k own) = after_increments k (S n) own.
Proof. unfold after_increments. by rewrite Nat.iter_succ_r. Qed.

Lemma inherited_text_proto : inherited_text (js "__proto__") = Some (js "[object Object]").
Proof. reflexivity. Qed.

Lemma not_inherited_not_proto k : inherited_text k = None → k ≠ js "__proto__".
Proof. intros Hk ->. by rewrite inherited_text_proto in Hk. Qed.

(** A key that [Object.prototype] does not have counts its increments. *)
Lemma after_increments_plain k n :
  inherited_text k = None → after_increments k n None = count_value n.
Proof.
  intros Hk. pose proof (not_inherited_not_proto k Hk) as Hne.
  unfold after_increments. induction n as [|n IH]; [done |].
  rewrite Nat.iter_succ, IH. unfold after_increment.
  rewrite bool_decide_eq_false_2 by done.
  destruct n as [|n]; cbn [count_value read_property or_zero_plus_one].
  - by rewrite Hk.
  - do 2 f_equal. destruct (Z.eqb_spec (Z.of_nat (S n)) 0); lia.
Qed.

(** The key [__proto__] never becomes an own property. *)
Lemma after_increments_proto n own :
  after_increments (js "__proto__") n own = own.
Proof.
  unfold after_increments. induction n as [|n IH]; [done |].
  rewrite Nat.iter_succ, IH. unfold after_increment.
  by rewrite bool_decide_eq_true_2.
Qed.

(** A key that names a function of [Object.prototype] holds the text of
    the function followed by one ["1"] per increment. *)
Lemma after_increments_inherited k text n :
  k ≠ js "__proto__" → inherited_text k = Some text →
  after_increments k n None =
  match n with
  | O => None
  | S _ => Some (JString (text ++ ones n))
  end.
Proof.
  intros Hne Hk. unfold after_increments. induction n as [|n IH]; [done |].
  rewrite Nat.iter_succ, IH. unfold after_increment.
  rewrite bool_decide_eq_false_2 by done.
  destruct n as [|n]; cbn [read_property or_zero_plus_one].
  - by rewrite Hk.
  - unfold ones. rewrite (replicate_S_end (S n)), app_assoc.
    change (js "1") with [0x31%N].
    assert (truthy_string (text ++ replicate (S n) 0x31%N) = true) as ->; [| done].
    cbn [replicate]. by destruct text.
Qed.

Section WithURL.
Variable URL_hostname : jsstring → option jsstring.

(** The domain count never lets the parser's exception escape. *)
Lemma count_by_domain_normal req r :
  count_by_domain URL_hostname req r =
  Normal (match URL_hostname (url req) with
          | Some domain => count_domain domain r
          | None => r
          end).
Proof.
  unfold count_by_domain, new_URL_hostname.
  by destruct (URL_hostname (url req)).
Qed.

Lemma report_step_normal r req :
  ∃ r', report_step URL_hostname r req = Normal r' ∧
    totalRequests r' = totalRequests r ∧
    requestsByMethod r' = increment_property (method req) (requestsByMethod r) ∧
    requestsByDomain r' =
      match URL_hostname (url req) with
      | Some domain => increment_property domain (requestsByDomain r)
      | None => requestsByDomain r
      end ∧
    requestsByType r' = count_type (url req) (requestsByType r) ∧
    statusCodes r' =
      match status req with
      | Some s => if decide (s = 0) then statusCodes r
                  else increment s (statusCodes r)
      | None => statusCodes r
      end.
Proof.
  unfold report_step. cbn [mret mbind completion_ret completion_bind].
  rewrite count_by_domain_normal. eexists. split; [reflexivity |].
  unfold count_by_status, truthy_opt_number.
  destruct (URL_hostname (url req)), (status req) as [s|]; cbn;
    try destruct (Z.eqb_spec s 0); cbn;
    repeat split; try done; by destruct (decide _).
Qed.

(** The loop runs to its end, and each part of the report is the part it
    started from plus what the requests add. *)
Lemma forEach_normal reqs r :
  ∃ r', forEach URL_hostname reqs r = Normal r' ∧
    totalRequests r' = totalRequests r ∧
    (∀ m, requestsByMethod r' !! m =
          after_increments m (number_of (λ q, method q = m) reqs)
                           (requestsByMethod r !! m)) ∧
    (∀ d, requestsByDomain r' !! d =
          after_increments d
            (number_of (λ q, URL_hostname (url q) = Some d) reqs)
            (requestsByDomain r !! d)) ∧
    requestsByType r' =
      foldl (λ t q, count_type (url q) t) (requestsByType r) reqs ∧
    (∀ s, statusCodes r' !! s =
          tally (statusCodes r !! s)
                (number_of (λ q, status q = Some s ∧ s ≠ 0) reqs)).
Proof.
  revert r. induction reqs as [|req reqs IH]; intros r.
  - exists r. by repeat split.
  - destruct (report_step_normal r req)
      as (r1 & Hstep & Htot & Hmeth & Hdom & Hty & Hst).
    destruct (IH r1) as (r' & Hrun & Htot' & Hmeth' & Hdom' & Hty' & Hst').
    exists r'. cbn [forEach]. rewrite Hstep.
    cbn [mbind completion_bind]. split; [done |].
    split; [congruence |]. repeat split.
    + intros m. rewrite Hmeth', Hmeth, lookup_increment_property, number_of_cons.
      destruct (decide (method req = m)) as [->|]; [| done].
      apply after_increments_succ.
    + intros d. rewrite Hdom', Hdom, number_of_cons.
      destruct (URL_hostname (url req)) as [domain|].
      * rewrite lookup_increment_property.
        destruct (decide (domain = d)) as [->|Hne].
        -- rewrite decide_True by done. apply after_increments_succ.
        -- rewrite decide_False; [done |]. by intros [= ->].
      * by rewrite decide_False.
    + by rewrite Hty', Hty.
    + intros s. rewrite Hst', Hst, number_of_cons.
      destruct (status req) as [s0|].
      * destruct (decide (s0 = 0)) as [->|Hs0].
        -- rewrite decide_False; [done |]. intros [[= <-] ?]. done.
        -- rewrite tally_increment.
           destruct (decide (s0 = s)) as [->|Hne].
           ++ by rewrite decide_True.
           ++ rewrite decide_False; [done |]. intros [[= ->] _]. done.
      * rewrite decide_False; [done |]. by intros [[=] _].
Qed.

Lemma requestReport_normal reqs :
  ∃ rep, requestReport URL_hostname reqs = Normal rep ∧
    totalRequests rep = Z.of_nat (length reqs) ∧
    (∀ m, requestsByMethod rep !! m =
          after_increments m (number_of (λ q, method q = m) reqs) None) ∧
    (∀ d, requestsByDomain rep !! d =
          after_increments d
            (number_of (λ q, URL_hostname (url q) = Some d) reqs) None) ∧
    requestsByType rep =
      foldl (λ t q, count_type (url q) t) no_requests_by_type reqs ∧
    (∀ s, statusCodes rep !! s =
          tally None (number_of (λ q, status q = Some s ∧ s ≠ 0) reqs)).
Proof.
  unfold requestReport.
  destruct (forEach_normal reqs (empty_report reqs))
    as (rep & Hrun & Htot & Hmeth & Hdom & Hty & Hst).
  exists rep. repeat split; try done.
Qed.

(** The two objects keyed by strings, as folds over the requests. *)
Lemma forEach_objects reqs r :
  ∃ r', forEach URL_hostname reqs r = Normal r' ∧
    requestsByMethod r' =
      foldl (λ obj q, increment_property (method q) obj)
            (requestsByMethod r) reqs ∧
    requestsByDomain r' =
      foldl (λ obj q, match URL_hostname (url q) with
                      | Some domain => increment_property domain obj
                      | None => obj
                      end)
            (requestsByDomain r) reqs.
Proof.
  revert r. induction reqs as [|req reqs IH]; intros r.
  - by exists r.
  - destruct (report_step_normal r req) as (r1 & Hstep & _ & Hmeth & Hdom & _).
    destruct (IH r1) as (r' & Hrun & Hmeth' & Hdom').
    exists r'. cbn [forEach foldl]. rewrite Hstep.
    cbn [mbind completion_bind]. split; [done |].
    by rewrite Hmeth', Hdom', Hmeth, Hdom.
Qed.

End WithURL.

Lemma foldl_count_type reqs t :
  api (foldl (λ t q, count_type (url q) t) t reqs) =
    api t + Z.of_nat (number_of (λ q, first_match tested_order (url q) = Api) reqs) ∧
  data (foldl (λ t q, count_type (url q) t) t reqs) =
    data t + Z.of_nat (number_of (λ q, first_match tested_order (url q) = Data) reqs) ∧
  assets (foldl (λ t q, count_type (url q) t) t reqs) =
    assets t + Z.of_nat (number_of (λ q, first_match tested_order (url q) = Assets) reqs) ∧
  other (foldl (λ t q, count_type (url q) t) t reqs) =
    other t + Z.of_nat (number_of (λ q, first_match tested_order (url q) = Other) reqs).
Proof.
  revert t. induction reqs as [|req reqs IH]; intros t.
  - cbn. repeat split; lia.
  - cbn [foldl]. destruct (IH (count_type (url req) t)) as (Ha & Hd & Hs & Ho).
    rewrite Ha, Hd, Hs, Ho, !number_of_cons, count_type_first_match.
    destruct (first_match tested_order (url req)); cbn;
      repeat case_decide; try done; repeat split; lia.
Qed.

(** C1, as stated, fails: the URL of a script under [/live/] matches a
    data pattern and an assets pattern and no api pattern; the report
    counts it as assets, not as the first match in the listed order,
    which is data. *)
Lemma script_under_live_is_assets :
  matches Api script_url = false ∧
  matches Data script_url = true ∧
  matches Assets script_url = true ∧
  first_match listed_order script_url = Data ∧
  count_type script_url no_requests_by_type
    ≠ bump (first_match listed_order script_url) no_requests_by_type.
Proof. repeat split; try (vm_compute; reflexivity). vm_compute. discriminate. Qed.

(** C1, amended: for every request the report increments exactly one of
    the counters api, data, assets, other, the one of the first type
    whose substrings occur in the URL when the types are tried in the
    order api, assets, data, other; so each counter of the report is the
    number of requests of that type, and a URL that matches a data
    pattern and an assets pattern, and no api pattern, is counted as
    assets. *)
Theorem requestsByType_first_match (URL_hostname : jsstring → option jsstring) :
  (∀ req r ty,
      requestsByType (count_by_type req r) = bump ty (requestsByType r) ↔
      ty = first_match tested_order (url req)) ∧
  (∀ reqs, ∃ rep,
      requestReport URL_hostname reqs = Normal rep ∧
      api (requestsByType rep) =
        Z.of_nat (number_of (λ q, first_match tested_order (url q) = Api) reqs) ∧
      data (requestsByType rep) =
        Z.of_nat (number_of (λ q, first_match tested_order (url q) = Data) reqs) ∧
      assets (requestsByType rep) =
        Z.of_nat (number_of (λ q, first_match tested_order (url q) = Assets) reqs) ∧
      other (requestsByType rep) =
        Z.of_nat (number_of (λ q, first_match tested_order (url q) = Other) reqs)) ∧
  (∀ u, matches Api u = false → matches Data u = true →
        matches Assets u = true → first_match tested_order u = Assets).
Proof.
  repeat split.
  - cbn [count_by_type requestsByType]. rewrite count_type_first_match.
    intros Heq. symmetry. by eapply bump_inj.
  - intros ->. cbn [count_by_type requestsByType].
    apply count_type_first_match.
  - intros reqs.
    destruct (requestReport_normal URL_hostname reqs)
      as (rep & Hrun & _ & _ & _ & Hty & _).
    exists rep. split; [done |]. rewrite Hty.
    destruct (foldl_count_type reqs no_requests_by_type)
      as (Ha & Hd & Hs & Ho).
    rewrite Ha, Hd, Hs, Ho. cbn. repeat split; lia.
  - intros u Hapi Hdata Hassets. cbn [first_match tested_order].
    by rewrite Hapi, Hassets.
Qed.

Lemma requestsByType_first_match_witness :
  first_match tested_order script_url = Assets.
Proof.
  apply (proj2 (proj2 (requestsByType_first_match sample_hostname)) script_url);
    vm_compute; reflexivity.
Defined.

Lemma requestReport_objects (URL_hostname : jsstring → option jsstring) reqs :
  ∃ rep, requestReport URL_hostname reqs = Normal rep ∧
    requestsByMethod rep =
      foldl (λ obj q, increment_property (method q) obj) ∅ reqs ∧
    requestsByDomain rep =
      foldl (λ obj q, match URL_hostname (url q) with
                      | Some domain => increment_property domain obj
                      | None => obj
                      end) ∅ reqs.
Proof. apply forEach_objects. Qed.

(** C5: a request whose method is [__proto__] gets no entry in
    [requestsByMethod], and a request whose method is [constructor] gets a
    string, not the count 1: the increment reads [obj[req.method]] through
    [Object.prototype]. *)
Theorem requestsByMethod_prototype_methods
    (URL_hostname : jsstring → option jsstring) :
  (∃ rep,
      requestReport URL_hostname get_and_proto = Normal rep ∧
      requestsByMethod rep = {[ js "GET" := JNumber 1 ]}) ∧
  (∃ rep,
      requestReport URL_hostname get_and_constructor = Normal rep ∧
      requestsByMethod rep =
        {[ js "GET" := JNumber 1;
           js "constructor" := JString (js "function Object() { [native code] }1") ]}).
Proof.
  split.
  - destruct (requestReport_objects URL_hostname get_and_proto)
      as (rep & Hrun & Hmeth & _).
    exists rep. split; [done |]. rewrite Hmeth. vm_compute. reflexivity.
  - destruct (requestReport_objects URL_hostname get_and_constructor)
      as (rep & Hrun & Hmeth & _).
    exists rep. split; [done |]. rewrite Hmeth. vm_compute. reflexivity.
Qed.

(** C6: a request to a URL that parses, with hostname [constructor], gets
    a string in [requestsByDomain], not the count 1: the increment reads
    [obj[domain]] through [Object.prototype]. *)
Theorem requestsByDomain_constructor_host
    (URL_hostname : jsstring → option jsstring) :
  URL_hostname (url to_constructor_host) = Some (js "constructor") →
  ∃ rep,
    requestReport URL_hostname [to_constructor_host] = Normal rep ∧
    requestsByDomain rep =
      {[ js "constructor" := JString (js "function Object() { [native code] }1") ]}.
Proof.
  intros Hhost.
  destruct (requestReport_objects URL_hostname [to_constructor_host])
    as (rep & Hrun & _ & Hdom).
  exists rep. split; [done |]. rewrite Hdom. cbn [foldl]. rewrite Hhost.
  vm_compute. reflexivity.
Qed.

Lemma requestsByDomain_constructor_host_witness :
  ∃ rep,
    requestReport sample_hostname [to_constructor_host] = Normal rep ∧
    requestsByDomain rep =
      {[ js "constructor" := JString (js "function Object() { [native code] }1") ]}.
Proof.
  apply (requestsByDomain_constructor_host sample_hostname). reflexivity.
Defined.

(** For every method that is not the name of a property of
    [Object.prototype], [requestsByMethod] holds the number of requests
    recorded with that method, and no entry when there is none; three
    requests with methods GET, GET, POST give [{GET: 2, POST: 1}]. *)
Theorem requestsByMethod_counts_plain (URL_hostname : jsstring → option jsstring) :
  (∀ reqs, ∃ rep,
      requestReport URL_hostname reqs = Normal rep ∧
      ∀ m, inherited_text m = None →
           requestsByMethod rep !! m =
           count_value (number_of (λ q, method q = m) reqs)) ∧
  (∀ r1 r2 r3,
      method r1 = js "GET" → method r2 = js "GET" → method r3 = js "POST" →
      ∃ rep,
        requestReport URL_hostname [r1; r2; r3] = Normal rep ∧
        requestsByMethod rep = {[ js "GET" := JNumber 2; js "POST" := JNumber 1 ]}).
Proof.
  split.
  - intros reqs.
    destruct (requestReport_normal URL_hostname reqs)
      as (rep & Hrun & _ & Hmeth & _).
    exists rep. split; [done |]. intros m Hm.
    by rewrite Hmeth, after_increments_plain.
  - intros r1 r2 r3 H1 H2 H3.
    destruct (requestReport_objects URL_hostname [r1; r2; r3])
      as (rep & Hrun & Hmeth & _).
    exists rep. split; [done |]. rewrite Hmeth. cbn [foldl].
    rewrite H1, H2, H3. vm_compute. reflexivity.
Qed.

Lemma requestsByMethod_counts_plain_witness :
  ∃ rep,
    requestReport sample_hostname get_get_post = Normal rep ∧
    requestsByMethod rep = {[ js "GET" := JNumber 2; js "POST" := JNumber 1 ]}.
Proof.
  apply (proj2 (requestsByMethod_counts_plain sample_hostname)); reflexivity.
Defined.

(** The report is built without an exception whatever the URLs are; for
    every hostname that is not the name of a property of
    [Object.prototype], [requestsByDomain] holds the number of requests
    whose URL parses to that hostname; requests whose URL does not parse
    are left out: dropping them from the sequence gives the same
    [requestsByDomain]. *)
Theorem requestsByDomain_counts_plain
    (URL_hostname : jsstring → option jsstring) (reqs : list NetworkRequest) :
  ∃ rep,
    requestReport URL_hostname reqs = Normal rep ∧
    (∀ d, inherited_text d = None →
          requestsByDomain rep !! d =
          count_value (number_of (λ q, URL_hostname (url q) = Some d) reqs)) ∧
    ∃ rep',
      requestReport URL_hostname
        (filter (λ q, is_Some (URL_hostname (url q))) reqs) = Normal rep' ∧
      requestsByDomain rep' = requestsByDomain rep.
Proof.
  destruct (requestReport_normal URL_hostname reqs)
    as (rep & Hrun & _ & _ & Hdom & _).
  exists rep. split; [done |]. split.
  - intros d Hd. by rewrite Hdom, after_increments_plain.
  - destruct (requestReport_normal URL_hostname
                (filter (λ q, is_Some (URL_hostname (url q))) reqs))
      as (rep' & Hrun' & _ & _ & Hdom' & _).
    exists rep'. split; [done |]. apply map_eq. intros d.
    rewrite Hdom, Hdom'. unfold number_of.
    rewrite list_filter_filter_l; [done |].
    intros q ->. by eexists.
Qed.

Lemma requestsByDomain_counts_plain_witness :
  ∃ rep,
    requestReport sample_hostname get_get_post = Normal rep ∧
    requestsByDomain rep !! js "www.one.co.il" = Some (JNumber 1).
Proof.
  destruct (requestsByDomain_counts_plain sample_hostname get_get_post)
    as (rep & Hrun & Hdom & _).
  exists rep. split; [exact Hrun |].
  rewrite (Hdom (js "www.one.co.il")); reflexivity.
Defined.

(** A method or hostname that names a property of [Object.prototype]
    never gets a count: [__proto__] gets no entry at all, and a name of
    one of the prototype's functions gets the text of that function
    followed by one ["1"] per request. *)
Theorem prototype_names_get_no_count
    (URL_hostname : jsstring → option jsstring) (reqs : list NetworkRequest) :
  ∃ rep,
    requestReport URL_hostname reqs = Normal rep ∧
    requestsByMethod rep !! js "__proto__" = None ∧
    requestsByDomain rep !! js "__proto__" = None ∧
    ∀ k text, k ≠ js "__proto__" → inherited_text k = Some text →
      requestsByMethod rep !! k =
        match number_of (λ q, method q = k) reqs with
        | O => None
        | S _ as n => Some (JString (text ++ ones n))
        end ∧
      requestsByDomain rep !! k =
        match number_of (λ q, URL_hostname (url q) = Some k) reqs with
        | O => None
        | S _ as n => Some (JString (text ++ ones n))
        end.
Proof.
  destruct (requestReport_normal URL_hostname reqs)
    as (rep & Hrun & _ & Hmeth & Hdom & _).
  exists rep. split; [done |]. split; [| split].
  - by rewrite Hmeth, after_increments_proto.
  - by rewrite Hdom, after_increments_proto.
  - intros k text Hne Hk. split.
    + rewrite Hmeth, (after_increments_inherited k text) by done.
      by destruct (number_of _ reqs).
    + rewrite Hdom, (after_increments_inherited k text) by done.
      by destruct (number_of _ reqs).
Qed.

Lemma prototype_names_get_no_count_witness :
  ∃ rep,
    requestReport sample_hostname get_and_constructor = Normal rep ∧
    requestsByMethod rep !! js "constructor"
    = Some (JString (js "function Object() { [native code] }1")).
Proof.
  destruct (prototype_names_get_no_count sample_hostname get_and_constructor)
    as (rep & Hrun & _ & _ & Hk).
  exists rep. split; [exact Hrun |].
  destruct (Hk (js "constructor") (js "function Object() { [native code] }"))
    as [Hm _]; [discriminate | reflexivity |].
  rewrite Hm. reflexivity.
Defined.

(** The report of a GET to the live page, a GET to something that is not a
    URL and a POST to the api host. *)
Example requestReport_get_get_post :
  requestReport sample_hostname get_get_post =
  Normal {| totalRequests := 3;
            requestsByMethod := {[ js "GET" := JNumber 2; js "POST" := JNumber 1 ]};
            requestsByDomain :=
              {[ js "www.one.co.il" := JNumber 1; js "api.one.co.il" := JNumber 1 ]};
            requestsByType := {| api := 1; data := 1; assets := 0; other := 1 |};
            statusCodes := ∅ |}.
Proof. vm_compute. reflexivity. Qed.

End ReportAggregatorFacts.

(** ** The network observer over runs of events *)

Module NetworkObserverRuns.
Import NetworkObserver Trace Samples NetworkObserverFacts.

Lemma fmap_insert_same {A B} (f : A → B) (l : list A) i x y :
  l !! i = Some x → f y = f x → f <$> <[i := y]> l = f <$> l.
Proof.
  intros Hi Hf. rewrite list_fmap_insert. apply list_insert_id.
  by rewrite list_lookup_fmap, Hi, Hf.
Qed.

Lemma on_response_identity now response reqs :
  identity <$> on_response now response reqs = identity <$> reqs.
Proof.
  unfold on_response.
  destruct (list_find _ reqs) as [[i request]|] eqn:Hfind; [| done].
  apply list_find_Some in Hfind as (Hi & _ & _).
  by eapply fmap_insert_same.
Qed.

Lemma run_identity events reqs :
  identity <$> foldl handle reqs events = (identity <$> reqs) ++ issued events.
Proof.
  revert reqs. induction events as [|e events IH]; intros reqs; cbn [foldl].
  - by rewrite app_nil_r.
  - rewrite IH. destruct e as [now request | now response]; cbn [handle].
    + unfold on_request. rewrite fmap_app, <- app_assoc. done.
    + by rewrite on_response_identity.
Qed.

(** The array holds one record per request event, in the order of the
    events, and each record keeps the URL, the method and the clock reading
    of its request whatever responses arrive. *)
Theorem observe_identity events :
  identity <$> observe events = issued events ∧
  length (observe events) = length (issued events).
Proof.
  assert (identity <$> observe events = issued events) as H.
  { unfold observe. by rewrite run_identity. }
  split; [done |]. by rewrite <- H, length_fmap.
Qed.

Lemma run_pending_or_resolved events reqs :
  Forall (λ r, pending r ∨ resolved r) reqs →
  Forall (λ r, pending r ∨ resolved r) (foldl handle reqs events).
Proof.
  revert reqs. induction events as [|e events IH]; intros reqs Hreqs; [done |].
  cbn [foldl]. apply IH.
  destruct e as [now request | now response]; cbn [handle].
  - unfold on_request. apply Forall_app. split; [done |].
    apply Forall_singleton. by left.
  - unfold on_response.
    destruct (list_find _ reqs) as [[i r]|]; [| done].
    apply Forall_insert; [done |]. right. unfold resolved, resolve. cbn.
    eauto.
Qed.

(** In the observed array a record has either none of [responseTime],
    [cached] and [status], or all three. *)
Theorem observe_pending_or_resolved events :
  Forall (λ r, pending r ∨ resolved r) (observe events).
Proof. by apply run_pending_or_resolved. Qed.

Lemma run_nonneg events reqs t0 :
  Forall (λ r, timestamp r ≤ t0 ∧ ∀ n, responseTime r = Some n → 0 ≤ n) reqs →
  Sorted Z.le (t0 :: (clock <$> events)) →
  Forall (λ r, ∀ n, responseTime r = Some n → 0 ≤ n) (foldl handle reqs events).
Proof.
  revert reqs t0. induction events as [|e events IH]; intros reqs t0 Hreqs Hs.
  - eapply Forall_impl; [exact Hreqs |]. by intros r [_ ?].
  - cbn [foldl]. rewrite fmap_cons in Hs.
    inversion Hs as [|? ? Hs' Hhd]; subst.
    inversion Hhd as [|? ? Hle]; subst.
    apply (IH _ (clock e)); [| done].
    assert (Forall (λ r, timestamp r ≤ clock e ∧
                         ∀ n, responseTime r = Some n → 0 ≤ n) reqs) as Hreqs'.
    { eapply Forall_impl; [exact Hreqs |]. intros r [? ?]. split; [lia | done]. }
    destruct e as [now request | now response]; cbn [handle clock] in *.
    + unfold on_request. apply Forall_app. split; [done |].
      apply Forall_singleton. cbn. split; [lia | done].
    + unfold on_response.
      destruct (list_find _ reqs) as [[i r]|] eqn:Hfind; [| done].
      apply list_find_Some in Hfind as (Hi & _ & _).
      apply Forall_insert; [done |].
      rewrite Forall_forall in Hreqs'.
      destruct (Hreqs' r) as [Hts _]; [by eapply list_elem_of_lookup_2 |].
      unfold resolve. cbn. split; [done |]. intros n [= <-]. lia.
Qed.

(** When the clock readings of the events never go back, no record gets a
    negative [responseTime]. *)
Theorem observe_responseTime_nonneg events :
  Sorted Z.le (clock <$> events) →
  Forall (λ r, ∀ n, responseTime r = Some n → 0 ≤ n) (observe events).
Proof.
  intros Hs. destruct events as [|e events]; [by constructor |].
  unfold observe. apply (run_nonneg _ _ (clock e)); [by constructor |].
  constructor; [done |]. rewrite fmap_cons. by constructor.
Qed.

Lemma observe_responseTime_nonneg_witness :
  Forall (λ r, ∀ n, responseTime r = Some n → 0 ≤ n)
         (observe two_requests_trace).
Proof.
  apply (observe_responseTime_nonneg two_requests_trace).
  cbn. repeat constructor; lia.
Defined.

(** A response for a URL that no record has leaves the array as it is. *)
Theorem on_response_unknown_url now response reqs :
  Forall (λ r, url r ≠ response_url response) reqs →
  on_response now response reqs = reqs.
Proof.
  intros Hurl. apply on_response_unmatched.
  eapply Forall_impl; [exact Hurl |]. intros r Hr.
  apply not_true_is_false. rewrite find_pred_iff. by intros [? _].
Qed.

Lemma on_response_unknown_url_witness :
  on_response 1020 logo_200 (observe two_requests_trace)
  = observe two_requests_trace.
Proof.
  apply (on_response_unknown_url 1020 logo_200 (observe two_requests_trace)).
  vm_compute. repeat constructor; discriminate.
Defined.

Lemma settled_not_found response r :
  settled r → find_pred response r = false.
Proof.
  intros (n & Hn & Hnz). apply not_true_is_false. rewrite find_pred_iff.
  intros [_ [H | H]]; congruence.
Qed.

(** A record whose [responseTime] is set and not zero is never touched
    again, whatever events follow. *)
Theorem settled_record_stable events reqs j r :
  reqs !! j = Some r → settled r →
  foldl handle reqs events !! j = Some r.
Proof.
  intros Hj Hset. revert reqs Hj.
  induction events as [|e events IH]; intros reqs Hj; [done |].
  cbn [foldl]. apply IH.
  destruct e as [now request | now response]; cbn [handle].
  - unfold on_request. by apply lookup_app_l_Some.
  - destruct (on_response_cases now response reqs)
      as [(i & q & Hi & Hp & _ & _ & Hothers) | [_ ->]]; [| done].
    rewrite Hothers; [done |]. intros ->.
    rewrite Hi in Hj. injection Hj as ->.
    by rewrite (settled_not_found response r) in Hp.
Qed.

Lemma settled_record_stable_witness :
  foldl handle (observe two_requests_trace)
        [ RequestIssued 1020 get_one; ResponseReceived 1030 one_200 ] !! 0%nat
  = Some one_resolved.
Proof.
  apply (settled_record_stable _ (observe two_requests_trace) 0 one_resolved).
  - vm_compute. reflexivity.
  - exists 10. split; [reflexivity | lia].
Defined.

(** A request followed by the response for its URL, on an array in which
    every record of that URL is settled: the record pushed for the request
    is the one resolved, with the time elapsed between the two events. *)
Theorem request_then_response now now' request response reqs :
  request_url request = response_url response →
  Forall (λ r, url r = response_url response → settled r) reqs →
  on_response now' response (on_request now request reqs) =
  reqs ++
  [ {| url := request_url request;
       method := request_method request;
       timestamp := now;
       responseTime := Some (now' - now);
       cached := Some (truthy_opt_string (response_headers response !! js "cache-control")
                       || truthy_opt_string (response_headers response !! js "etag"));
       status := Some (response_status response) |} ].
Proof.
  intros Hurl Hsettled. unfold on_response, on_request.
  rewrite list_find_app_r.
  - cbn [list_find]. rewrite decide_True.
    + cbn. replace (length reqs) with (length reqs + 0)%nat by lia.
      by rewrite insert_app_r.
    + unfold find_pred. cbn. by rewrite bool_decide_eq_true_2.
  - apply list_find_None. rewrite Forall_forall in *.
    intros r Hr Hp. pose proof Hp as Hp'. apply find_pred_iff in Hp' as [Hu _].
    by rewrite (settled_not_found response r) in Hp; [| apply Hsettled].
Qed.

Lemma request_then_response_witness :
  on_response 1030 one_200 (on_request 1020 get_one (observe two_requests_trace)) =
  observe two_requests_trace ++
  [ {| url := one_url; method := js "GET"; timestamp := 1020;
       responseTime := Some 10; cached := Some true; status := Some 200 |} ].
Proof.
  apply (request_then_response 1020 1030 get_one one_200
           (observe two_requests_trace)).
  - reflexivity.
  - vm_compute. repeat constructor; intros _.
    + exists 10. split; [reflexivity | lia].
    + exists 13. split; [reflexivity | lia].
Defined.

Lemma not_found_settled response r :
  find_pred response r = false → url r = response_url response → settled r.
Proof.
  intros Hp Hu. destruct (responseTime r) as [n|] eqn:Hn.
  - exists n. split; [done |]. intros ->.
    assert (find_pred response r = true) as Ht; [| congruence].
    apply find_pred_iff. auto.
  - assert (find_pred response r = true) as Ht; [| congruence].
    apply find_pred_iff. auto.
Qed.

(** A response changes at most one record: the first one, in the order of
    the array, that has the response's URL and whose [responseTime] is
    absent or zero; it is replaced by its resolution.  When every record of
    that URL is settled, the array is left as it is. *)
Theorem on_response_first_unresolved now response reqs :
  (∃ i request,
      reqs !! i = Some request ∧
      url request = response_url response ∧
      (responseTime request = None ∨ responseTime request = Some 0) ∧
      (∀ j y, reqs !! j = Some y → (j < i)%nat →
              url y = response_url response → settled y) ∧
      on_response now response reqs = <[i := resolve now response request]> reqs) ∨
  ((∀ r, r ∈ reqs → url r = response_url response → settled r) ∧
   on_response now response reqs = reqs).
Proof.
  unfold on_response.
  destruct (list_find _ reqs) as [[i request]|] eqn:Hfind.
  - left. apply list_find_Some in Hfind as (Hi & Hp & Hfirst).
    apply find_pred_iff in Hp as [Hu Hrt].
    exists i, request. repeat split; try done.
    intros j y Hj Hlt Hy. apply (not_found_settled response); [| done].
    apply not_true_is_false. by eapply Hfirst.
  - right. split; [| done]. apply list_find_None in Hfind.
    rewrite Forall_forall in Hfind. intros r Hr Hu.
    apply (not_found_settled response); [| done].
    apply not_true_is_false. by apply Hfind.
Qed.

End NetworkObserverRuns.

(** ** The report over what its listeners collect *)

Module ReportRuns.
Import NetworkObserver ReportAggregator Spec Trace Samples.
Import ReportAggregatorFacts NetworkObserverRuns.

Lemma length_filter_fmap {A B} (f : A → B) (P : B → Prop)
    `{∀ y, Decision (P y)} (l : list A) :
  length (filter (λ x, P (f x)) l) = length (filter P (f <$> l)).
Proof.
  induction l as [|x l IH]; [done |].
  rewrite fmap_cons, !filter_cons. destruct (decide (P (f x))); cbn; lia.
Qed.

Lemma collect_on_response_identity now response reqs :
  identity <$> ReportObserver.on_response now response reqs = identity <$> reqs.
Proof.
  unfold ReportObserver.on_response.
  destruct (list_find _ reqs) as [[i request]|] eqn:Hfind; [| done].
  apply list_find_Some in Hfind as (Hi & _ & _).
  by eapply fmap_insert_same.
Qed.

Lemma collect_run_identity events reqs :
  identity <$> foldl ReportObserver.handle reqs events
  = (identity <$> reqs) ++ issued events.
Proof.
  revert reqs. induction events as [|e events IH]; intros reqs; cbn [foldl].
  - by rewrite app_nil_r.
  - rewrite IH. destruct e as [now request | now response];
      cbn [ReportObserver.handle].
    + unfold ReportObserver.on_request. rewrite fmap_app, <- app_assoc. done.
    + by rewrite collect_on_response_identity.
Qed.

Lemma collect_identity events :
  identity <$> ReportObserver.collect events = issued events.
Proof. unfold ReportObserver.collect. by rewrite collect_run_identity. Qed.

Lemma collect_run_invariant events reqs :
  Forall (λ r, cached r = None ∧
               (is_Some (status r) ↔ is_Some (responseTime r))) reqs →
  Forall (λ r, cached r = None ∧
               (is_Some (status r) ↔ is_Some (responseTime r)))
         (foldl ReportObserver.handle reqs events).
Proof.
  revert reqs. induction events as [|e events IH]; intros reqs Hreqs; [done |].
  cbn [foldl]. apply IH.
  destruct e as [now request | now response]; cbn [ReportObserver.handle].
  - unfold ReportObserver.on_request. apply Forall_app. split; [done |].
    apply Forall_singleton. cbn. split; [done |].
    split; intros [? [=]].
  - unfold ReportObserver.on_response.
    destruct (list_find _ reqs) as [[i r]|] eqn:Hfind; [| done].
    apply list_find_Some in Hfind as (Hi & _ & _).
    rewrite Forall_forall in Hreqs.
    destruct (Hreqs r) as [Hc _]; [by eapply list_elem_of_lookup_2 |].
    apply Forall_insert; [by apply Forall_forall |].
    unfold ReportObserver.resolve. cbn. split; [done |]. split; eauto.
Qed.

(** The listeners of the report test never set [cached], and give a record
    a [status] exactly when they give it a [responseTime]. *)
Theorem collect_status_with_responseTime events :
  Forall (λ r, cached r = None ∧
               (is_Some (status r) ↔ is_Some (responseTime r)))
         (ReportObserver.collect events).
Proof. by apply collect_run_invariant. Qed.

(** The report counts a status code once per request that carries it, and
    counts nothing for requests without a status or with status 0;
    [totalRequests] is the number of requests. *)
Theorem statusCodes_counts (URL_hostname : jsstring → option jsstring)
    (reqs : list NetworkRequest) :
  ∃ rep,
    requestReport URL_hostname reqs = Normal rep ∧
    totalRequests rep = Z.of_nat (length reqs) ∧
    ∀ s, statusCodes rep !! s =
         count_opt (number_of (λ q, status q = Some s ∧ s ≠ 0) reqs).
Proof.
  destruct (requestReport_normal URL_hostname reqs)
    as (rep & Hrun & Htot & _ & _ & _ & Hst).
  exists rep. repeat split; [done | done |].
  intros s. by rewrite Hst, tally_None.
Qed.

Lemma foldl_count_type_sum reqs t :
  api (foldl (λ t q, count_type (url q) t) t reqs)
  + data (foldl (λ t q, count_type (url q) t) t reqs)
  + assets (foldl (λ t q, count_type (url q) t) t reqs)
  + other (foldl (λ t q, count_type (url q) t) t reqs)
  = api t + data t + assets t + other t + Z.of_nat (length reqs).
Proof.
  revert t. induction reqs as [|req reqs IH]; intros t.
  - cbn. lia.
  - cbn [foldl]. rewrite IH, count_type_first_match.
    destruct (first_match tested_order (url req)); cbn [bump api data assets other length];
      lia.
Qed.

(** Every request is counted under one type: the four counters of
    [requestsByType] add up to [totalRequests]. *)
Theorem requestsByType_sum (URL_hostname : jsstring → option jsstring)
    (reqs : list NetworkRequest) :
  ∃ rep,
    requestReport URL_hostname reqs = Normal rep ∧
    api (requestsByType rep) + data (requestsByType rep)
    + assets (requestsByType rep) + other (requestsByType rep)
    = totalRequests rep.
Proof.
  destruct (requestReport_normal URL_hostname reqs)
    as (rep & Hrun & Htot & _ & _ & Hty & _).
  exists rep. split; [done |].
  rewrite Hty, Htot, foldl_count_type_sum. cbn. lia.
Qed.

(** The report built from what the listeners collected depends on the
    request events only: [totalRequests] is their number, and for every
    method and hostname that is not the name of a property of
    [Object.prototype] the counts by method and by hostname are counts of
    request events, whatever responses arrived in between. *)
Theorem report_of_collected (URL_hostname : jsstring → option jsstring)
    (events : list event) :
  ∃ rep,
    requestReport URL_hostname (ReportObserver.collect events) = Normal rep ∧
    totalRequests rep = Z.of_nat (length (issued events)) ∧
    (∀ m, inherited_text m = None →
          requestsByMethod rep !! m =
          count_value (length (filter (λ i, i.1.2 = m) (issued events)))) ∧
    (∀ d, inherited_text d = None →
          requestsByDomain rep !! d =
          count_value (length (filter (λ i, URL_hostname i.1.1 = Some d)
                                      (issued events)))).
Proof.
  destruct (requestReport_normal URL_hostname (ReportObserver.collect events))
    as (rep & Hrun & Htot & Hmeth & Hdom & _).
  exists rep. split; [done |]. rewrite <- collect_identity. repeat split.
  - by rewrite Htot, length_fmap.
  - intros m Hm. rewrite Hmeth, after_increments_plain by done. unfold number_of.
    by rewrite <- (length_filter_fmap identity (λ i, i.1.2 = m)).
  - intros d Hd. rewrite Hdom, after_increments_plain by done. unfold number_of.
    by rewrite <- (length_filter_fmap identity (λ i, URL_hostname i.1.1 = Some d)).
Qed.

Lemma report_of_collected_witness :
  ∃ rep,
    requestReport sample_hostname (ReportObserver.collect two_requests_trace)
      = Normal rep ∧
    requestsByMethod rep !! js "POST" = Some (JNumber 1) ∧
    requestsByDomain rep !! js "api.one.co.il" = Some (JNumber 1).
Proof.
  destruct (report_of_collected sample_hostname two_requests_trace)
    as (rep & Hrun & _ & Hmeth & Hdom).
  exists rep. split; [exact Hrun |]. split.
  - rewrite (Hmeth (js "POST")); reflexivity.
  - rewrite (Hdom (js "api.one.co.il")); reflexivity.
Defined.

End ReportRuns.

(** ** The caching test's listener *)

Module CacheTestFacts.
Import NetworkObserver ReportAggregator Spec.

Lemma load_run responses reqs :
  foldl (λ l r, CacheTest.on_response r.1 r.2 l) reqs responses =
  reqs ++ foldl (λ l r, CacheTest.on_response r.1 r.2 l) [] responses.
Proof.
  revert reqs. induction responses as [|r responses IH]; intros reqs; cbn [foldl].
  - by rewrite app_nil_r.
  - rewrite IH. rewrite (IH (CacheTest.on_response r.1 r.2 [])).
    unfold CacheTest.on_response. destruct (CacheTest.tracked _); [| done].
    by rewrite app_assoc.
Qed.

(** The caching test keeps one record per response whose URL contains
    "api", "data", "match" or "live", in the order of arrival; each record
    has that URL, the method GET whatever the request was, a
    [responseTime] of 0 and no status. *)
Theorem load_records responses :
  url <$> CacheTest.load responses =
    filter (λ u, CacheTest.tracked u = true) (response_url <$> responses.*2) ∧
  Forall (λ r, method r = js "GET" ∧ responseTime r = Some 0 ∧
               cached r = None ∧ status r = None)
         (CacheTest.load responses).
Proof.
  unfold CacheTest.load.
  induction responses as [|[now response] responses [IHu IHf]]; [by split |].
  cbn [foldl]. rewrite load_run.
  rewrite fmap_app, Forall_app, IHu.
  cbn [fmap list_fmap snd]. rewrite filter_cons.
  unfold CacheTest.on_response. cbn [fst snd].
  destruct (CacheTest.tracked (response_url response)) eqn:Ht.
  - rewrite decide_True by done. split; [done |]. split; [| done].
    apply Forall_singleton. by cbn.
  - rewrite decide_False by (by intros [=]). split; [done |]. by split.
Qed.

(** A URL the report counts as api or as data is one the caching test
    keeps, and a URL the report counts as other is one it drops. *)
Theorem tracked_by_type (u : jsstring) :
  (first_match tested_order u = Api ∨ first_match tested_order u = Data →
   CacheTest.tracked u = true) ∧
  (first_match tested_order u = Other → CacheTest.tracked u = false).
Proof.
  unfold CacheTest.tracked, tested_order, first_match, matches.
  destruct (includes u (js "api")), (includes u (js "data")),
           (includes u (js "match")), (includes u (js "live")); cbn;
    repeat case_match; (split; [intros [?|?] | intros ?]; done).
Qed.

Lemma tracked_by_type_witness :
  CacheTest.tracked Samples.vote_url = true ∧
  CacheTest.tracked Samples.logo_url = false.
Proof.
  split.
  - apply (proj1 (tracked_by_type Samples.vote_url)). left. vm_compute. reflexivity.
  - apply (proj2 (tracked_by_type Samples.logo_url)). vm_compute. reflexivity.
Defined.

End CacheTestFacts.

(** ** More on the validators *)

Module ValidatorsMore.
Import Validators JsStringFacts ValidatorsFacts.

Lemma validateTeamName_string (s : jsstring) :
  validateTeamName (Some (Some s)) = true ↔ trim s ≠ [].
Proof.
  unfold validateTeamName, typeof_string.
  rewrite bool_decide_eq_true_2 by done. cbn [andb]. apply length_pos_iff.
Qed.

(** [validateTeamName] accepts exactly the strings that hold a code unit
    which is neither white space nor a line terminator; [null] and
    [undefined] are refused. *)
Theorem validateTeamName_iff (teamName : option (option jsstring)) :
  validateTeamName teamName = true ↔
  ∃ s, teamName = Some (Some s) ∧ Exists (λ c, is_trimmable c = false) s.
Proof.
  destruct teamName as [[s|]|].
  - rewrite validateTeamName_string, trim_nonempty_iff. split.
    + intros H. by exists s.
    + by intros (s' & [= <-] & H).
  - split; [done | by intros (s & [=] & _)].
  - split; [done | by intros (s & [=] & _)].
Qed.

(** White space around a team name does not change the verdict of
    [validateTeamName]. *)
Theorem validateTeamName_padding (before s after : jsstring) :
  Forall (λ c, is_trimmable c = true) before →
  Forall (λ c, is_trimmable c = true) after →
  validateTeamName (Some (Some (before ++ s ++ after)))
  = validateTeamName (Some (Some s)).
Proof.
  intros Hb Ha.
  assert (∀ pad, Forall (λ c, is_trimmable c = true) pad →
                 ¬ Exists (λ c, is_trimmable c = false) pad) as Hpad.
  { intros pad Hp He. apply Exists_exists in He as (c & Hc & Hf).
    rewrite Forall_forall in Hp. specialize (Hp c Hc). congruence. }
  apply eq_bool_prop_intro.
  rewrite !Is_true_true, !validateTeamName_string, !trim_nonempty_iff.
  rewrite !Exists_app. split; [| by auto].
  intros [H | [H | H]]; [by apply Hpad in H | done | by apply Hpad in H].
Qed.

Lemma validateTeamName_padding_witness :
  validateTeamName (Some (Some (js "  " ++ js "Hapoel" ++ js " ")))
  = validateTeamName (Some (Some (js "Hapoel"))).
Proof.
  apply (validateTeamName_padding (js "  ") (js "Hapoel") (js " "));
    repeat constructor.
Defined.

(** A match is upcoming exactly when one of its scores is missing and its
    time holds a code unit that is not white space; no match is both played
    and upcoming. *)
Theorem isUpcomingMatch_iff {number} (m : Match number) :
  (isUpcomingMatch m = true ↔
   (homeScore m = None ∨ awayScore m = None) ∧
   ∃ t, time m = Some t ∧ Exists (λ c, is_trimmable c = false) t) ∧
  ¬ (isPlayedMatch m = true ∧ isUpcomingMatch m = true).
Proof.
  split.
  - unfold isUpcomingMatch.
    rewrite andb_true_iff, negb_true_iff, <- not_true_iff_false, isPlayedMatch_iff.
    split.
    + intros [Hnp Ht]. split.
      * destruct (homeScore m) as [h|]; [| by left].
        destruct (awayScore m) as [a|]; [| by right].
        exfalso. apply Hnp. split; eauto.
      * destruct (time m) as [t|]; [| done]. exists t. split; [done |].
        by apply trim_nonempty_iff, length_pos_iff.
    + intros [Hnone (t & Ht & Hex)]. split.
      * intros [[h Hh] [a Ha]]. destruct Hnone; congruence.
      * rewrite Ht. by apply length_pos_iff, trim_nonempty_iff.
  - unfold isUpcomingMatch. intros [Hp Hu]. rewrite Hp in Hu. done.
Qed.

(** A match is valid exactly when [validateTeamName] accepts both of its
    team names and its date is not the empty string. *)
Theorem validateMatch_team_names {number} (m : Match number) :
  validateMatch m = true ↔
  validateTeamName (Some (Some (homeTeam m))) = true ∧
  validateTeamName (Some (Some (awayTeam m))) = true ∧
  date m ≠ [].
Proof. by rewrite validateMatch_iff, !validateTeamName_string. Qed.

End ValidatorsMore.

(** ** The fallback over selectors *)

Module DomFallbackFacts.
Import DomFallback.

Section WithDocument.
Context {Element : Type}.
Variable querySelectorAll : jsstring → list Element.

Lemma try_alternatives_find alts (current : list Element) :
  try_alternatives querySelectorAll alts current =
  match list_find (λ sel, querySelectorAll sel ≠ []) alts with
  | Some (_, sel) => querySelectorAll sel
  | None => match last alts with
            | Some sel => querySelectorAll sel
            | None => current
            end
  end.
Proof.
  revert current. induction alts as [|alt alts IH]; intros current; [done |].
  cbn [try_alternatives list_find].
  destruct (querySelectorAll alt) as [|x l] eqn:Halt.
  - rewrite decide_False by (by intros H; apply H).
    cbn. rewrite IH.
    destruct (list_find _ alts) as [[i sel]|] eqn:Hfind; cbn; [done |].
    destruct alts as [|alt' alts']; [cbn; by rewrite Halt |].
    rewrite last_cons_cons.
    destruct (last (alt' :: alts')) eqn:Hlast; [done |].
    by apply last_None in Hlast.
  - rewrite decide_True by done. done.
Qed.

End WithDocument.

(** The elements selected are those of the first selector, the primary one
    first and then the alternatives in their order, that matches an element
    of the document; when no selector matches, nothing is selected. *)
Theorem select_elements_first {Element : Type}
    (querySelectorAll : jsstring → list Element)
    (primary : jsstring) (alts : list jsstring) :
  select_elements querySelectorAll primary alts =
  match list_find (λ sel, querySelectorAll sel ≠ []) (primary :: alts) with
  | Some (_, sel) => querySelectorAll sel
  | None => []
  end.
Proof.
  unfold select_elements. cbn [list_find].
  destruct (querySelectorAll primary) as [|x l] eqn:Hprim.
  - rewrite decide_False by (by intros H; apply H). cbn.
    rewrite try_alternatives_find.
    destruct (list_find _ alts) as [[i sel]|] eqn:Hfind; cbn; [done |].
    apply list_find_None in Hfind.
    destruct (last alts) as [sel|] eqn:Hlast; [| done].
    apply last_Some_elem_of in Hlast. rewrite Forall_forall in Hfind.
    specialize (Hfind sel Hlast).
    destruct (querySelectorAll sel); [done |]. by exfalso; apply Hfind.
  - by rewrite decide_True.
Qed.

End DomFallbackFacts.

(** ** The link checks *)

Module LinkNavigationFacts.
Import LinkNavigation Samples.

Lemma valid_href_Some href h :
  valid_href href = Some h ↔ href = Some h ∧ h ≠ [] ∧ h ≠ js "#".
Proof.
  unfold valid_href. destruct href as [h0|]; [| by split; [| intros [? _]]].
  destruct h0 as [|c h0]; cbn [truthy_string andb].
  - split; [done | by intros [[= <-] [? _]]].
  - rewrite andb_true_r.
    destruct (bool_decide_reflect (c :: h0 = js "#")) as [Heq | Hne]; cbn.
    + split; [done |]. intros [[= <-] [_ Hne]]. done.
    + split.
      * intros [= <-]. done.
      * by intros [[= <-] _].
Qed.

Lemma valid_href_None_Some h :
  valid_href (Some h) = None → h = [] ∨ h = js "#".
Proof.
  intros Hn. destruct (decide (h = [])) as [| Hne]; [by left |].
  destruct (decide (h = js "#")) as [| Hne']; [by right |].
  assert (valid_href (Some h) = Some h) as Hs by by apply valid_href_Some.
  congruence.
Qed.

Lemma validLinks_cons href hrefs :
  validLinks (href :: hrefs) =
  match valid_href href with
  | Some h => Some h :: validLinks hrefs
  | None => validLinks hrefs
  end.
Proof.
  unfold validLinks. rewrite fmap_cons, filter_cons.
  destruct (valid_href href); [by rewrite decide_True | by rewrite decide_False; auto].
Qed.

Lemma length_validLinks hrefs : (length (validLinks hrefs) ≤ length hrefs)%nat.
Proof.
  unfold validLinks. etrans; [apply length_filter |]. by rewrite length_fmap.
Qed.

(** [firstValidLink] is the first [href], in document order, that is
    present and is neither empty nor ["#"]; and there are no more valid
    links than links. *)
Theorem firstValidLink_first (hrefs : list (option jsstring)) :
  (∀ h, firstValidLink (linkInfo hrefs) = Some h ↔
        ∃ i, hrefs !! i = Some (Some h) ∧ h ≠ [] ∧ h ≠ js "#" ∧
             ∀ j h', (j < i)%nat → hrefs !! j = Some (Some h') →
                     h' = [] ∨ h' = js "#") ∧
  (validLinkCount (linkInfo hrefs) ≤ linkCount (linkInfo hrefs))%nat.
Proof.
  split; [| apply length_validLinks].
  cbn [linkInfo firstValidLink].
  induction hrefs as [|href hrefs IH]; intros h.
  - split; [done | by intros (i & Hi & _)].
  - rewrite validLinks_cons. destruct (valid_href href) as [h0|] eqn:Hv.
    + apply valid_href_Some in Hv as (-> & Hne & Hhash).
      cbn [lookup list_lookup or_null]. destruct h0 as [|c h0]; [done |].
      cbn [truthy_string]. split.
      * intros [= <-]. exists 0%nat. repeat split; try done. intros; lia.
      * intros ([|i] & Hi & _ & _ & Hfirst).
        -- by injection Hi as ->.
        -- destruct (Hfirst 0%nat (c :: h0)) as [? | ?]; [lia | done | done | done].
    + rewrite IH. split.
      * intros (i & Hi & Hne & Hhash & Hfirst). exists (S i).
        repeat split; try done. intros [|j] h' Hlt Hj.
        -- injection Hj as ->. by apply valid_href_None_Some.
        -- apply (Hfirst j); [lia | done].
      * intros ([|i] & Hi & Hne & Hhash & Hfirst).
        -- injection Hi as ->.
           assert (valid_href (Some h) = Some h) by by apply valid_href_Some.
           congruence.
        -- exists i. repeat split; try done. intros j h' Hlt Hj.
           apply (Hfirst (S j)); [lia | done].
Qed.

(** Once a first valid link was found, the expectation checked after the
    click holds whatever the URLs before and after the click are. *)
Theorem navigation_expectation_holds hrefs h originalUrl newUrl :
  firstValidLink (linkInfo hrefs) = Some h →
  navigation_expectation (linkInfo hrefs) originalUrl newUrl = true.
Proof.
  unfold navigation_expectation. cbn [linkInfo firstValidLink validLinkCount].
  intros Hfirst. apply orb_true_iff. right.
  destruct (validLinks hrefs); [done | done].
Qed.

Lemma navigation_expectation_holds_witness :
  navigation_expectation (linkInfo page_hrefs) one_url one_url = true.
Proof.
  apply (navigation_expectation_holds page_hrefs (js "/live/match/12")).
  vm_compute. reflexivity.
Defined.

Lemma is_special_backslash : is_special 0x5C%N = true.
Proof. reflexivity. Qed.

(** The escaping loses nothing: two links with the same escaped form are
    the same link. *)
Theorem escapedHref_inj (a b : jsstring) :
  escapedHref a = escapedHref b → a = b.
Proof.
  revert b. induction a as [|c a IH]; intros [|d b]; cbn [escapedHref].
  - done.
  - by destruct (is_special d).
  - by destruct (is_special c).
  - destruct (is_special c) eqn:Hc, (is_special d) eqn:Hd.
    + intros [= -> Heq]. f_equal. by apply IH.
    + intros [= <- _]. by rewrite is_special_backslash in Hd.
    + intros [= -> _]. by rewrite is_special_backslash in Hc.
    + intros [= -> Heq]. f_equal. by apply IH.
Qed.

Lemma escapedHref_inj_witness : js "/news?id=1" = js "/news?id=1".
Proof. apply (escapedHref_inj (js "/news?id=1") (js "/news?id=1")). reflexivity. Defined.

(** The escaping adds one backslash per character of the class and leaves
    a link without such characters as it is. *)
Theorem escapedHref_length (href : jsstring) :
  length (escapedHref href)
    = (length href + length (filter (λ c, is_special c = true) href))%nat ∧
  (Forall (λ c, is_special c = false) href → escapedHref href = href).
Proof.
  split.
  - induction href as [|c href IH]; [done |].
    cbn [escapedHref]. rewrite filter_cons.
    destruct (is_special c) eqn:Hc.
    + rewrite decide_True by done. cbn [length]. lia.
    + rewrite decide_False by done. cbn [length]. lia.
  - induction 1 as [|c href Hc _ IH]; [done |].
    cbn [escapedHref]. by rewrite Hc, IH.
Qed.

Lemma escapedHref_length_witness : escapedHref (js "/news") = js "/news".
Proof.
  apply (proj2 (escapedHref_length (js "/news"))). repeat constructor.
Defined.

Lemma split_shape sep s :
  ∃ seg pre,
    last (split sep s) = Some seg ∧
    Forall (λ c, c ≠ sep) seg ∧
    s = pre ++ seg ∧
    ((length (split sep s) = 1%nat ∧ pre = []) ∨
     ((2 ≤ length (split sep s))%nat ∧ ∃ pre', pre = pre' ++ [sep])).
Proof.
  induction s as [|c s (seg & pre & Hlast & Hseg & Hs & Hshape)].
  - exists [], []. repeat split; [constructor |]. by left.
  - cbn [split]. destruct (N.eqb_spec c sep) as [-> | Hne].
    + exists seg, (sep :: pre).
      destruct (split sep s) as [|seg0 segs] eqn:Hsplit; [done |].
      repeat split; [by rewrite last_cons_cons | done | by rewrite Hs |].
      right. split; [cbn; lia |].
      destruct Hshape as [[_ ->] | [_ [pre' ->]]].
      * by exists [].
      * by exists (sep :: pre').
    + destruct (split sep s) as [|seg0 [|seg1 segs]] eqn:Hsplit; [done | |].
      * destruct Hshape as [[_ ->] | [Hlen _]]; [| cbn in Hlen; lia].
        cbn in Hlast. injection Hlast as ->. cbn in Hs. subst s.
        exists (c :: seg), []. repeat split; [by constructor |]. by left.
      * destruct Hshape as [[Hlen _] | [_ [pre' ->]]]; [cbn in Hlen; lia |].
        exists seg, (c :: pre' ++ [sep]).
        repeat split; [by rewrite !last_cons_cons in * | done | by rewrite Hs |].
        right. split; [cbn; lia |]. by exists (c :: pre').
Qed.

(** The needle of the second selector is what follows the last ["/"] of
    the link, the whole link when it has no ["/"]: it holds no ["/"], and
    the link is the needle after nothing or after a part that ends with
    ["/"]. *)
Theorem last_segment_suffix (href : jsstring) :
  ∃ seg pre,
    last_segment href = Some seg ∧
    Forall (λ c, c ≠ 0x2F%N) seg ∧
    href = pre ++ seg ∧
    (pre = [] ∨ ∃ pre', pre = pre' ++ [0x2F%N]).
Proof.
  destruct (split_shape 0x2F%N href) as (seg & pre & Hlast & Hseg & Hs & Hshape).
  exists seg, pre. repeat split; try done.
  destruct Hshape as [[_ ->] | [_ Hpre]]; [by left | by right].
Qed.

End LinkNavigationFacts.

(** ** The checks of the goal sorting test *)

Module GoalSortingFacts.
Import GoalSorting JsStringFacts.

Lemma isSorted_cons a goals :
  isSorted (a :: goals) = true ↔
  (∀ b, head goals = Some b → b ≤ a) ∧ isSorted goals = true.
Proof.
  destruct goals as [|b goals].
  - split; [intros _; split; [done | done] | done].
  - cbn [isSorted head]. destruct (Z.ltb_spec a b) as [Hlt | Hge].
    + split; [done |]. intros [Hb _]. specialize (Hb b eq_refl). lia.
    + split.
      * intros Hs. split; [by intros ? [= <-] | done].
      * by intros [_ Hs].
Qed.

(** The loop answers [true] exactly when the goals never increase along
    the list: every scorer has at least as many goals as every scorer
    after it. *)
Theorem isSorted_iff (goals : list Z) :
  isSorted goals = true ↔
  ∀ i j a b, (i < j)%nat → goals !! i = Some a → goals !! j = Some b → b ≤ a.
Proof.
  induction goals as [|a goals IH].
  - split; [by intros _ i j a b _ Hi | done].
  - rewrite isSorted_cons, IH. split.
    + intros [Hhead Hrest] [|i] [|j] x y Hlt Hi Hj; try lia.
      * injection Hi as <-. cbn in Hj.
        destruct goals as [|b goals]; [done |].
        specialize (Hhead b eq_refl).
        destruct j as [|j]; [by injection Hj as <- |].
        assert (y ≤ b); [| lia].
        apply (Hrest 0%nat (S j) b y); [lia | done | done].
      * cbn in Hi, Hj. apply (Hrest i j); [lia | done | done].
    + intros Hall. split.
      * intros b Hb. destruct goals as [|b' goals]; [done |].
        injection Hb as ->. apply (Hall 0%nat 1%nat); [lia | done | done].
      * intros i j x y Hlt Hi Hj. apply (Hall (S i) (S j)); [lia | done | done].
Qed.

(** At most three links are tried for the stats page: the first of the
    links, in document order, whose [href] is present and contains "match",
    "game" or "stats". *)
Theorem matchLinks_first_three (hrefs : list (option jsstring)) :
  length (matchLinks hrefs)
    = (3 `min` length (filter (λ href, is_match_link href = true) hrefs))%nat ∧
  matchLinks hrefs `sublist_of` hrefs ∧
  Forall (λ href, ∃ h, href = Some h ∧
                       (includes h (js "match") = true ∨
                        includes h (js "game") = true ∨
                        includes h (js "stats") = true))
         (matchLinks hrefs) ∧
  matchLinks hrefs `prefix_of` filter (λ href, is_match_link href = true) hrefs.
Proof.
  unfold matchLinks. split; [| split; [| split]].
  - apply length_take.
  - etrans; [apply sublist_take | apply sublist_filter].
  - apply Forall_take, Forall_forall. intros href Hin.
    apply list_elem_of_filter in Hin as [Hm _].
    destruct href as [h|]; [| done]. exists h. split; [done |].
    cbn in Hm. by rewrite !orb_true_iff in Hm; destruct Hm as [[?|?]|?]; auto.
  - apply prefix_take.
Qed.

End GoalSortingFacts.
